(** * Mesh-topology planner and zdb allocator of zos: model and properties

  A shallow embedding of [modules/network/net_resource.go] (peer and route
  planning, WireGuard apply step) and of [Allocate2] in
  [pkg/storage/zdb.go], with the properties of the design document stated
  over it. *)

From Stdlib Require Import List String Ascii ZArith Lia Bool DecimalString.
Import ListNotations.
Local Open Scope string_scope.
Local Open Scope Z_scope.

(** ** Go values shared by both packages *)

(** Go's [error] values, as far as the code tells them apart: a plain message
  ([fmt.Errorf]), the two classes recognised by [os.IsNotExist] and
  [os.IsExist], and a cause wrapped with a message ([errors.Wrapf]). *)
Inductive error : Type :=
| errorString (msg : string)
| ErrNotExist
| ErrExist
| withMessage (cause : error) (msg : string).

(** A Go result [(v, err)]: [Err e] when [err != nil], else the value. *)
Inductive Result (A : Type) : Type :=
| Ok (v : A)
| Err (e : error).
Arguments Ok {A} v.
Arguments Err {A} e.

(** [os.IsNotExist]; a wrapped error is not unwrapped. *)
Definition os_IsNotExist (e : error) : bool :=
  match e with ErrNotExist => true | _ => false end.

(** The verb [%d] of [fmt.Sprintf] on an integer. *)
Definition itoa (z : Z) : string := NilZero.string_of_int (Z.to_int z).

(** ** Package net (Go standard library) *)
Module net.

(** [type IP []byte], [type IPMask []byte]; the nil slice is [[]]. *)
Definition IP := list Z.
Definition IPMask := list Z.

(** [type IPNet struct { IP IP; Mask IPMask }] *)
Record IPNet : Type := mkIPNet { ipnet_IP : IP; ipnet_Mask : IPMask }.

Definition IPv4len : nat := 4.
Definition IPv6len : nat := 16.

Definition v4InV6Prefix : list Z := [0; 0; 0; 0; 0; 0; 0; 0; 0; 0; 255; 255].

(** [func IPv4(a, b, c, d byte) IP]: the 16-byte form. *)
Definition IPv4 (a b c d : Z) : IP := (v4InV6Prefix ++ [a; b; c; d])%list.

(** [func (ip IP) To16() IP]; [None] is the nil result. *)
Definition To16 (ip : IP) : option IP :=
  if Nat.eqb (List.length ip) IPv4len then
    Some (IPv4 (nth 0 ip 0) (nth 1 ip 0) (nth 2 ip 0) (nth 3 ip 0))
  else if Nat.eqb (List.length ip) IPv6len then Some ip
  else None.

(** The loop of [CIDRMask]: [l] bytes left to fill, [n] one-bits left. *)
Fixpoint maskBytes (l : nat) (n : Z) : IPMask :=
  match l with
  | O => []
  | S l' =>
      if 8 <=? n then 255 :: maskBytes l' (n - 8)
      else Z.lxor 255 (Z.shiftr 255 n) :: maskBytes l' 0
  end.

(** [func CIDRMask(ones, bits int) IPMask] *)
Definition CIDRMask (ones bits : Z) : IPMask :=
  if negb (bits =? 8 * Z.of_nat IPv4len) && negb (bits =? 8 * Z.of_nat IPv6len) then []
  else if (ones <? 0) || (bits <? ones) then []
  else maskBytes (Z.to_nat (bits / 8)) ones.

(** The text conversions of the package: [IP.String], [IPNet.String] and
  [ParseIP].  The planner only compares and forwards their results, so
  they are kept as an interface. *)
Class Text : Type := {
    IP_String : IP -> string;
    IPNet_String : IPNet -> string;
    ParseIP : string -> IP
  }.

End net.

(** ** Package modules: the network description *)
Module modules.

(** Modelled from the spec: the reachability constants of package modules
  are not among the sources; section 3 gives each address family one of
  Public, Hidden/NAT-restricted (ULA for IPv6) or Unknown. *)
Inductive ReachabilityV4 : Type :=
  | ReachabilityV4Unknown | ReachabilityV4Hidden | ReachabilityV4Public.

Inductive ReachabilityV6 : Type :=
  | ReachabilityV6Unknown | ReachabilityV6ULA | ReachabilityV6Public.

Record NodeID : Type := mkNodeID {
    ID : string;
    ReachabilityV4_ : ReachabilityV4;
    ReachabilityV6_ : ReachabilityV6
  }.

(** Modelled from the spec: a peer's connection type; only the WireGuard
  tunnel is known to the planner, any other tag is foreign. *)
Inductive ConnType : Type :=
  | ConnTypeWireguard
  | ConnTypeOther (tag : string).

(** The connection data of a peer: [Connection.IP], [.Port], [.Key]. *)
Record Wireguard : Type := mkWireguard {
    conn_IP : net.IP;
    conn_Port : Z;
    conn_Key : string
  }.

Record Peer : Type := mkPeer {
    peer_Type : ConnType;
    peer_Prefix : net.IPNet;
    peer_Connection : Wireguard
  }.

Record NetResource : Type := mkNetResource {
    res_NodeID : NodeID;
    res_Prefix : net.IPNet;
    res_LinkLocal : net.IPNet;
    res_Peers : list Peer
  }.

Record Network : Type := mkNetwork {
    net_Resources : list NetResource;
    net_Exit : NetResource;
    net_AllocationNR : Z
  }.

Definition ConnType_eqb (a b : ConnType) : bool :=
  match a, b with
  | ConnTypeWireguard, ConnTypeWireguard => true
  | ConnTypeOther s, ConnTypeOther t => String.eqb s t
  | _, _ => false
  end.

Definition ReachabilityV4_eqb (a b : ReachabilityV4) : bool :=
  match a, b with
  | ReachabilityV4Unknown, ReachabilityV4Unknown
  | ReachabilityV4Hidden, ReachabilityV4Hidden
  | ReachabilityV4Public, ReachabilityV4Public => true
  | _, _ => false
  end.

Definition ReachabilityV6_eqb (a b : ReachabilityV6) : bool :=
  match a, b with
  | ReachabilityV6Unknown, ReachabilityV6Unknown
  | ReachabilityV6ULA, ReachabilityV6ULA
  | ReachabilityV6Public, ReachabilityV6Public => true
  | _, _ => false
  end.

End modules.

(** ** Package zosip: the Nibble derivation *)
Module zosip.

(** Modelled from the spec: package zosip is not among the sources.  Its
  [Nibble] (section 3, Derived naming) is a deterministic function of a
  prefix and an allocation number giving the names, the hex token and
  the IPv4 octet pair; [ToV4] may fail (section 4.1, AddressError). *)
Class Lib : Type := {
    Nibble : Type;
    NewNibble : net.IPNet -> Z -> Nibble;
    Hex : Nibble -> string;
    ToV4 : Nibble -> Result (Z * Z);
    NetworkName : Nibble -> string;
    WiregardName : Nibble -> string
  }.

End zosip.

(** ** Packages wireguard and netlink: the planner's outputs *)
Module wireguard.

(** [wireguard.Peer]; an unset [Endpoint] is the empty string. *)
Record Peer : Type := mkPeer {
  PublicKey : string;
Endpoint : string;
    AllowedIPs : list string
  }.

End wireguard.

Module netlink.

(** The fields of [netlink.Route] the code sets. *)
Record Route : Type := mkRoute {
    Dst : net.IPNet;
    Gw : net.IP;
    LinkIndex : Z
  }.

End netlink.

(** ** The host: namespaces, links, keys, kernel routes *)
Module host.

(** A call on the host: it may change the world and may fail; a failed
  call keeps whatever it changed before failing. *)
Definition IO (W A : Type) : Type := W -> W * Result A.

Definition ret {W A : Type} (a : A) : IO W A := fun w => (w, Ok a).

Definition bind {W A B : Type} (c : IO W A) (k : A -> IO W B) : IO W B :=
  fun w =>
    match c w with
    | (w1, Ok a) => k a w1
    | (w1, Err e) => (w1, Err e)
    end.

(** [v, err := first; if err != nil { v, err = second }] *)
Definition orElse {W A : Type} (first second : IO W A) : IO W A :=
  fun w =>
    match first w with
    | (w1, Ok a) => (w1, Ok a)
    | (w1, Err _) => second w1
    end.

(** [defer cleanup()] around a body; the result of [cleanup] is dropped. *)
Definition defer {W A : Type} (cleanup : W -> W) (body : IO W A) : IO W A :=
  fun w => let (w1, r) := body w in (cleanup w1, r).

(** The operations [configWG] calls on packages namespace, wireguard,
  wgtypes, netlink and filepath, none of which is among the sources:
  each is a call on the host whose outcome the code only inspects for
  [err != nil]. *)
Class OS : Type := {
    World : Type;
    NetNS : Type;
    Key : Type;
    Wireguard : Type;
    namespace_GetByName : string -> IO World NetNS;
    NetNS_Close : NetNS -> World -> World;
    NetNS_Set : NetNS -> IO World unit;
    NetNS_Unset : NetNS -> World -> World;
    wireguard_LoadKey : string -> IO World Key;
    wireguard_GenerateKey : string -> IO World Key;
    Key_String : Key -> string;
    wireguard_GetByName : string -> IO World Wireguard;
    SetAddr : Wireguard -> string -> IO World unit;
    Configure : Wireguard -> string -> list wireguard.Peer -> IO World unit;
    Attrs_Index : Wireguard -> Z;
    netlink_RouteAdd : netlink.Route -> IO World unit;
    filepath_Join : string -> string -> string
  }.

(** [netns.Do(handler)]: switch to the namespace, run the handler, switch
  back, and return the handler's error. *)
Definition NetNS_Do {H : OS} (netns : NetNS) (handler : IO World unit)
  : IO World unit :=
  bind (NetNS_Set netns) (fun _ => defer (NetNS_Unset netns) handler).

End host.

Declare Scope io_scope.
Delimit Scope io_scope with io.
Notation "x <- c ;; k" := (host.bind c (fun x => k))
  (at level 61, c at next level, right associativity) : io_scope.
Notation "c ;;; k" := (host.bind c (fun _ => k))
  (at level 61, right associativity) : io_scope.

(** ** Package network: net_resource.go, the planner *)
Module network.
Import modules.

Section Planner.
Context {NT : net.Text} {NL : zosip.Lib}.

(** What a planning function returns: [(peers, routes, err)].  A nil and
  an empty slice are both [[]]. *)
Definition Plan : Type :=
  (list wireguard.Peer * list netlink.Route * option error)%type.

(** The prefix of a peer as the code compares it: [peer.Prefix.String()]. *)
Definition peerPrefix (peer : Peer) : string :=
  net.IPNet_String (peer_Prefix peer).

Definition resPrefix (res : NetResource) : string :=
  net.IPNet_String (res_Prefix res).

Fixpoint isIn (target : string) (l : list string) : bool :=
  match l with
  | [] => false
  | x :: l' => if String.eqb target x then true else isIn target l'
  end.

Fixpoint getPeer (prefix : string) (peers : list Peer) : Result Peer :=
  match peers with
  | [] => Err (errorString "peer not found")
  | peer :: rest =>
      if String.eqb (peerPrefix peer) prefix then Ok peer
      else getPeer prefix rest
  end.

Definition isPublic (nodeID : NodeID) : bool :=
  ReachabilityV6_eqb (ReachabilityV6_ nodeID) ReachabilityV6Public
  || ReachabilityV4_eqb (ReachabilityV4_ nodeID) ReachabilityV4Public.

Definition isHidden (nodeID : NodeID) : bool :=
  ReachabilityV6_eqb (ReachabilityV6_ nodeID) ReachabilityV6ULA
  || ReachabilityV4_eqb (ReachabilityV4_ nodeID) ReachabilityV4Hidden.

(** The loop of [publicPrefixes], [output] being the slice built so far. *)
Fixpoint publicPrefixes_from (output : list string)
    (resources : list NetResource) : list string :=
  match resources with
  | [] => output
  | res :: rest =>
      if isPublic (res_NodeID res)
      then publicPrefixes_from (output ++ [resPrefix res])%list rest
      else publicPrefixes_from output rest
  end.

Definition publicPrefixes (resources : list NetResource) : list string :=
  publicPrefixes_from [] resources.

Fixpoint hiddenPrefixes_from (output : list string)
    (resources : list NetResource) : list string :=
  match resources with
  | [] => output
  | res :: rest =>
      if isHidden (res_NodeID res)
      then hiddenPrefixes_from (output ++ [resPrefix res])%list rest
      else hiddenPrefixes_from output rest
  end.

Definition hiddenPrefixes (resources : list NetResource) : list string :=
  hiddenPrefixes_from [] resources.

Definition endpoint (peer : Peer) : string :=
  let conn := peer_Connection peer in
  match net.To16 (conn_IP conn) with
  | Some _ => "[" ++ net.IP_String (conn_IP conn) ++ "]:" ++ itoa (conn_Port conn)
  | None => net.IP_String (conn_IP conn) ++ ":" ++ itoa (conn_Port conn)
  end.

(** The three allowed-IPs every per-peer entry carries. *)
Definition peerAllowedIPs (nibble : zosip.Nibble) (a b : Z) (peer : Peer)
  : list string :=
  [ "fe80::" ++ zosip.Hex nibble ++ "/128";
    "172.16." ++ itoa a ++ "." ++ itoa b ++ "/32";
    peerPrefix peer ].

(** [&netlink.Route{Dst: peer.Prefix, Gw: net.ParseIP("fe80::" + hex)}] *)
Definition peerRoute (nibble : zosip.Nibble) (peer : Peer) : netlink.Route :=
  netlink.mkRoute (peer_Prefix peer)
    (net.ParseIP ("fe80::" ++ zosip.Hex nibble)) 0.

(** The peer loop of [configureExitNetNR] (lines 178-207); an error of
  [ToV4] leaves the function at once. *)
Fixpoint configureExitNetNR_loop (localResource : NetResource)
    (network : Network) (hiddenPrefixes : list string)
    (todo : list Peer) (peers : list wireguard.Peer)
    (routes : list netlink.Route)
  : Result (list wireguard.Peer * list netlink.Route) :=
  match todo with
  | [] => Ok (peers, routes)
  | peer :: rest =>
      let continue := configureExitNetNR_loop localResource network hiddenPrefixes rest in
      if negb (ConnType_eqb (peer_Type peer) ConnTypeWireguard) then
        continue peers routes
      else if String.eqb (peerPrefix peer) (resPrefix localResource) then
        continue peers routes
      else if negb (isIn (peerPrefix peer) hiddenPrefixes) then
        continue peers routes
      else
        let nibble := zosip.NewNibble (peer_Prefix peer) (net_AllocationNR network) in
        match zosip.ToV4 nibble with
        | Err err => Err err
        | Ok (a, b) =>
            continue
              (peers ++ [wireguard.mkPeer (conn_Key (peer_Connection peer)) ""
                           (peerAllowedIPs nibble a b peer)])%list
              (routes ++ [peerRoute nibble peer])%list
        end
  end.

Fixpoint prepareHidden_loop (localResource : NetResource)
    (network : Network) (publicPrefixes : list string)
    (todo : list Peer) (peers : list wireguard.Peer)
    (routes : list netlink.Route) : Plan :=
  match todo with
  | [] => (peers, routes, None)
  | peer :: rest =>
      let continue := prepareHidden_loop localResource network publicPrefixes rest in
      if negb (ConnType_eqb (peer_Type peer) ConnTypeWireguard) then
        continue peers routes
      else if String.eqb (peerPrefix peer) (resPrefix localResource) then
        continue peers routes
      else
        let nibble := zosip.NewNibble (peer_Prefix peer) (net_AllocationNR network) in
        match zosip.ToV4 nibble with
        | Err err => ([], [], Some err)
        | Ok (a, b) =>
            if isIn (peerPrefix peer) publicPrefixes then
              continue
                (peers ++ [wireguard.mkPeer (conn_Key (peer_Connection peer))
                             (endpoint peer)
                             (peerAllowedIPs nibble a b peer)])%list
                (routes ++ [peerRoute nibble peer])%list
            else continue peers routes
        end
  end.

Definition prepareHidden (localResource : NetResource) (network : Network)
  : Plan :=
  let publicPrefixes := publicPrefixes (net_Resources network) in
  prepareHidden_loop localResource network publicPrefixes
    (res_Peers localResource) [] [].

Fixpoint preparePublic_loop (localResource : NetResource)
    (network : Network) (publicPrefixes : list string)
    (todo : list Peer) (peers : list wireguard.Peer)
    (routes : list netlink.Route) : Plan :=
  match todo with
  | [] => (peers, routes, None)
  | peer :: rest =>
      let continue := preparePublic_loop localResource network publicPrefixes rest in
      if negb (ConnType_eqb (peer_Type peer) ConnTypeWireguard) then
        continue peers routes
      else if String.eqb (peerPrefix peer) (resPrefix localResource) then
        continue peers routes
      else
        let nibble := zosip.NewNibble (peer_Prefix peer) (net_AllocationNR network) in
        match zosip.ToV4 nibble with
        | Err err => ([], [], Some err)
        | Ok (a, b) =>
            let wgPeer :=
              wireguard.mkPeer (conn_Key (peer_Connection peer)) ""
                (peerAllowedIPs nibble a b peer) in
            let wgPeer :=
              if isIn (peerPrefix peer) publicPrefixes
              then wireguard.mkPeer (wireguard.PublicKey wgPeer) (endpoint peer)
                     (wireguard.AllowedIPs wgPeer)
              else wgPeer in
            let peers := (peers ++ [wgPeer])%list in
            if String.eqb (peerPrefix peer) (resPrefix (net_Exit network)) then
              continue peers routes
            else
              continue peers (routes ++ [peerRoute nibble peer])%list
        end
  end.

Definition preparePublic (localResource : NetResource) (network : Network)
  : Plan :=
  let publicPrefixes := publicPrefixes (net_Resources network) in
  preparePublic_loop localResource network publicPrefixes
    (res_Peers localResource) [] [].

Definition prepareNonExitNode (localResource : NetResource)
    (network : Network) : Plan :=
  let peers : list wireguard.Peer := [] in
  let routes : list netlink.Route := [] in
  match getPeer (resPrefix (net_Exit network)) (res_Peers localResource) with
  | Err err => ([], [], Some err)
  | Ok exitPeer =>
      let peers :=
        (peers ++ [wireguard.mkPeer (conn_Key (peer_Connection exitPeer))
                     (endpoint exitPeer) ["0.0.0.0/0"; "::/0"]])%list in
      let nibble := zosip.NewNibble (peer_Prefix exitPeer) (net_AllocationNR network) in
      if negb (String.eqb (resPrefix localResource) (resPrefix (net_Exit network))) then
        let dst := net.mkIPNet (net.ParseIP "::") (net.CIDRMask 64 128) in
        let routes :=
          (routes ++ [netlink.mkRoute dst
                        (net.ParseIP ("fe80::" ++ zosip.Hex nibble)) 0])%list in
        match zosip.ToV4 nibble with
        | Err err => ([], [], Some err)
        | Ok (a, b) =>
            let dst :=
              net.mkIPNet (net.ParseIP ("10." ++ itoa a ++ "." ++ itoa b ++ ".0"))
                (net.CIDRMask 24 32) in
            let routes :=
              (routes ++ [netlink.mkRoute dst
                            (net.ParseIP ("172.16." ++ itoa a ++ "." ++ itoa b)) 0])%list in
            let dst := net.mkIPNet (net.ParseIP "0.0.0.0") (net.CIDRMask 0 32) in
            let routes :=
              (routes ++ [netlink.mkRoute dst
                            (net.ParseIP ("172.16." ++ itoa a ++ "." ++ itoa b)) 0])%list in
            (peers, routes, None)
        end
      else (peers, routes, None)
  end.

(** Modelled from the spec: the struct [networker] is declared outside
  net_resource.go; the method below reads its node identifier only. *)
Record networker : Type := mkNetworker { nodeID : NodeID }.

(** [func (n *networker) localResource(resources)]; [None] is the nil
  result. *)
Fixpoint localResource (n : networker) (resources : list NetResource)
  : option NetResource :=
  match resources with
  | [] => None
  | resource :: rest =>
      if String.eqb (ID (res_NodeID resource)) (ID (nodeID n)) then Some resource
      else localResource n rest
  end.

End Planner.

Section Apply.
Context {NT : net.Text} {NL : zosip.Lib} {H : host.OS}.
Local Open Scope io_scope.

(** The route loop of the handler (lines 450-459): stamp the interface
  index on the route, add it, and leave at the first error. *)
Fixpoint addRoutes (wg : host.Wireguard) (routes : list netlink.Route)
  : host.IO host.World unit :=
  match routes with
  | [] => host.ret tt
  | route :: rest =>
      let route :=
        netlink.mkRoute (netlink.Dst route) (netlink.Gw route)
          (host.Attrs_Index wg) in
      host.netlink_RouteAdd route ;;;
      addRoutes wg rest
  end.

(** [ToV4] read as a call that touches nothing. *)
Definition liftResult {A : Type} (r : Result A) : host.IO host.World A :=
  fun w => (w, r).

(** The closure [handler] of [configWG] (lines 427-462). *)
Definition configWG_handler (localResource : NetResource)
    (localNibble : zosip.Nibble) (key : host.Key)
    (wgPeers : list wireguard.Peer) (routes : list netlink.Route)
  : host.IO host.World unit :=
  wg <- host.wireguard_GetByName (zosip.WiregardName localNibble) ;;
  host.SetAddr wg (net.IPNet_String (res_LinkLocal localResource)) ;;;
  ab <- liftResult (zosip.ToV4 localNibble) ;;
  host.SetAddr wg ("172.16." ++ itoa (fst ab) ++ "." ++ itoa (snd ab) ++ "/16") ;;;
  host.Configure wg (host.Key_String key) wgPeers ;;;
  addRoutes wg routes.

Definition configWG (localResource : NetResource) (network : Network)
    (wgPeers : list wireguard.Peer) (routes : list netlink.Route)
    (storageDir : string) : host.IO host.World unit :=
  let localNibble :=
    zosip.NewNibble (res_Prefix localResource) (net_AllocationNR network) in
  netns <- host.namespace_GetByName (zosip.NetworkName localNibble) ;;
  host.defer (host.NetNS_Close netns)
    (let storagePath := host.filepath_Join storageDir (zosip.Hex localNibble) in
     key <- host.orElse (host.wireguard_LoadKey storagePath)
              (host.wireguard_GenerateKey storagePath) ;;
     host.NetNS_Do netns
       (configWG_handler localResource localNibble key wgPeers routes)).

(** [configureExitNetNR]: the peer loop, then the text of [configWG]
  once more (lines 209-262 repeat lines 410-463). *)
Definition configureExitNetNR (localResource : NetResource)
    (network : Network) (storageDir : string) : host.IO host.World unit :=
  let hiddenPrefixes := hiddenPrefixes (net_Resources network) in
  pr <- liftResult
          (configureExitNetNR_loop localResource network hiddenPrefixes
             (res_Peers localResource) [] []) ;;
  configWG localResource network (fst pr) (snd pr) storageDir.

End Apply.
End network.

(** ** Package storage: zdb.go, the namespace allocator *)
Module storage.

(** A [uint64] result: arithmetic wraps around at 2^64. *)
Definition uint64 (z : Z) : Z := z mod 2 ^ 64.

(** [type Allocation struct { VolumeID, VolumePath string }] *)
Record Allocation : Type := mkAllocation {
    VolumeID : string;
    VolumePath : string
  }.

(** The zero value of [Allocation], what the named result holds until it
  is assigned. *)
Definition zeroAllocation : Allocation := mkAllocation "" "".

Record zdbNamespace : Type := mkNamespace {
    ns_ID : string;
    ns_Size : Z;
    ns_Mode : string
  }.

Definition zeroNamespace : zdbNamespace := mkNamespace "" 0 "".

Definition zdbNamespaces : Type := list zdbNamespace.

Fixpoint Total_from (total : Z) (s : zdbNamespaces) : Z :=
  match s with
  | [] => total
  | n :: rest => Total_from (uint64 (total + ns_Size n)) rest
  end.

(** [func (s zdbNamespaces) Total() (total uint64)] *)
Definition Total (s : zdbNamespaces) : Z := Total_from 0 s.

Definition zdbPoolPrefix : string := "zdb".

(** What the code reads of a [filesystem.Volume]: [Name()] and [Path()]. *)
Record Volume : Type := mkVolume {
    vol_Name : string;
    vol_Path : string
  }.

(** [filesystem.Usage]; only [Size] is read. *)
Record Usage : Type := mkUsage { Size : Z }.

(** What the code reads of a [filesystem.Pool]: [Type()], [Name()] and the
  results of [Volumes()] and [Usage()]. *)
Record Pool : Type := mkPool {
    pool_Name : string;
    pool_Type : string;
    pool_Volumes : Result (list Volume);
    pool_Usage : Result Usage
  }.

Record storageModule : Type := mkStorage { volumes : list Pool }.

(** [os.FileInfo] as [ListNamespaces] reads it. *)
Record FileInfo : Type := mkFileInfo {
    fi_Name : string;
    fi_IsDir : bool
  }.

(** A candidate of the second search: the volume and its free space. *)
Record Candidate : Type := mkCandidate {
    cand_Volume : Volume;
    Free : Z
  }.

(** The file system and the helpers of this package that are not in
  zdb.go ([createSubvol]) or are random ([genZDBPoolName]'s uuid), as
  one call returns them; [sort_Slice] is [sort.Slice] with its [less]. *)
Class FS : Type := {
    File : Type;
    filepath_Join : list string -> string;
    os_Open : string -> Result File;
    os_MkdirAll : string -> option error;
    os_Create : string -> Result File;
    json_Decode : File -> zdbNamespace -> zdbNamespace * option error;
    json_Encode : File -> zdbNamespace -> option error;
    ioutil_ReadDir : string -> Result (list FileInfo);
    uuid_NewRandom : Result string;
    createSubvol : storageModule -> Z -> string -> string -> Result Volume;
    sort_Slice : (Candidate -> Candidate -> bool) -> list Candidate -> list Candidate
  }.

(** The quota calls of [filesystem.Pool] and [filesystem.Volume] that
  [Allocate] and [Claim] make: [pool.Reserved()], [volume.Usage()] and
  [volume.Limit(size)], as one call returns them. *)
Class Quota : Type := {
  pool_Reserved : Pool -> Result Z;
  vol_Usage : Volume -> Result Usage;
  vol_Limit : Volume -> Z -> option error
}.

(** A call [volume.Limit(size)] the code made. *)
Definition LimitCall : Type := (Volume * Z)%type.

Definition isZdbVolume (volume : Volume) : bool :=
  String.prefix zdbPoolPrefix (vol_Name volume).

(** A loop body either returns from the function or goes on. *)
Inductive Flow (A : Type) : Type :=
  | Return (r : Allocation * option error)
  | Continue (a : A).
Arguments Return {A} r.
Arguments Continue {A} a.

Section Zdb.
Context {F : FS}.

Definition CreateNamespace (v : Volume) (ns : string) (info : zdbNamespace)
  : option error :=
  let dir := filepath_Join [vol_Path v; ns] in
  match os_MkdirAll dir with
  | Some err => Some err
  | None =>
      match os_Create (filepath_Join [dir; ".info"]) with
      | Err err => Some err
      | Ok infoFile => json_Encode infoFile info
      end
  end.

Definition GetNamespace (v : Volume) (ns : string)
  : zdbNamespace * option error :=
  let infoPath := filepath_Join [vol_Path v; ns; ".info"] in
  match os_Open infoPath with
  | Err err => (zeroNamespace, Some err)
  | Ok infoFile =>
      let (info, err) := json_Decode infoFile zeroNamespace in
      (mkNamespace ns (ns_Size info) (ns_Mode info), err)
  end.

Fixpoint ListNamespaces_loop (v : Volume) (dirs : list FileInfo)
    (namespaces : zdbNamespaces) : Result zdbNamespaces :=
  match dirs with
  | [] => Ok namespaces
  | dir :: rest =>
      if negb (fi_IsDir dir) then ListNamespaces_loop v rest namespaces
      else
        match GetNamespace v (fi_Name dir) with
        | (info, None) => ListNamespaces_loop v rest (namespaces ++ [info])%list
        | (_, Some err) =>
            if os_IsNotExist err then ListNamespaces_loop v rest namespaces
            else Err err
        end
  end.

Definition ListNamespaces (v : Volume) : Result zdbNamespaces :=
  match ioutil_ReadDir (vol_Path v) with
  | Err err => Err err
  | Ok dirs => ListNamespaces_loop v dirs []
  end.

Definition genZDBPoolName : Result string :=
  match uuid_NewRandom with
  | Err err => Err err
  | Ok id => Ok (zdbPoolPrefix ++ id)
  end.

(** First search, inner loop (lines 130-152): the volume that already
  holds the namespace. *)
Fixpoint findVolumes (nsID : string) (allocation : Allocation)
    (vols : list Volume) : Flow unit :=
  match vols with
  | [] => Continue tt
  | volume :: rest =>
      if negb (isZdbVolume volume) then findVolumes nsID allocation rest
      else
        match snd (GetNamespace volume nsID) with
        | Some err =>
            if os_IsNotExist err then findVolumes nsID allocation rest
            else Return (allocation,
                   Some (withMessage err
                     ("failed to get namespace info on volume '" ++ vol_Path volume ++ "'")))
        | None =>
            Return (mkAllocation (vol_Name volume) (vol_Path volume), None)
        end
  end.

(** First search, outer loop (lines 118-153). *)
Fixpoint findPools (nsID diskType : string) (allocation : Allocation)
    (pools : list Pool) : Flow unit :=
  match pools with
  | [] => Continue tt
  | pool :: rest =>
      if negb (String.eqb (pool_Type pool) diskType)
      then findPools nsID diskType allocation rest
      else
        match pool_Volumes pool with
        | Err err =>
            Return (allocation,
              Some (withMessage err ("failed to list volume on pool " ++ pool_Name pool)))
        | Ok vols =>
            match findVolumes nsID allocation vols with
            | Return r => Return r
            | Continue _ => findPools nsID diskType allocation rest
            end
        end
  end.

(** Second search, inner loop (lines 178-205). *)
Fixpoint searchVolumes (size : Z) (allocation : Allocation) (usage : Usage)
    (vols : list Volume) (candidates : list Candidate)
  : Flow (list Candidate) :=
  match vols with
  | [] => Continue candidates
  | volume :: rest =>
      if negb (isZdbVolume volume)
      then searchVolumes size allocation usage rest candidates
      else
        match ListNamespaces volume with
        | Err err =>
            Return (allocation,
              Some (withMessage err
                ("failed to list namespaces from volume '" ++ vol_Path volume ++ "'")))
        | Ok namespaces =>
            let quota := Total namespaces in
            if Size usage <? uint64 (quota + size)
            then searchVolumes size allocation usage rest candidates
            else
              let candidates :=
                (candidates ++
                   [mkCandidate volume (uint64 (Size usage - uint64 (quota + size)))])%list in
              Return (allocation, None)
        end
  end.

(** Second search, outer loop (lines 162-206). *)
Fixpoint searchPools (diskType : string) (size : Z) (allocation : Allocation)
    (pools : list Pool) (candidates : list Candidate)
  : Flow (list Candidate) :=
  match pools with
  | [] => Continue candidates
  | pool :: rest =>
      if negb (String.eqb (pool_Type pool) diskType)
      then searchPools diskType size allocation rest candidates
      else
        match pool_Usage pool with
        | Err err =>
            Return (allocation,
              Some (withMessage err ("failed to read usage of pool " ++ pool_Name pool)))
        | Ok usage =>
            match pool_Volumes pool with
            | Err err =>
                Return (allocation,
                  Some (withMessage err ("failed to list volume on pool " ++ pool_Name pool)))
            | Ok vols =>
                match searchVolumes size allocation usage vols candidates with
                | Return r => Return r
                | Continue candidates =>
                    searchPools diskType size allocation rest candidates
                end
            end
        end
  end.

(** Lines 208-244: pick the volume (best candidate, or a new
  sub-volume) and create the namespace on it. *)
Definition allocateOn (s : storageModule) (nsID diskType : string)
    (size : Z) (mode : string) (allocation : Allocation)
    (candidates : list Candidate) : Allocation * option error :=
  let chosen : Result Volume :=
    if (0 <? Z.of_nat (List.length candidates)) then
      match sort_Slice (fun ci cj => Free cj <? Free ci) candidates with
      | c :: _ => Ok (cand_Volume c)
      | [] => Err (errorString "index out of range")
      end
    else
      match genZDBPoolName with
      | Err err => Err (withMessage err "failed to generate new sub-volume name")
      | Ok name =>
          match createSubvol s size name diskType with
          | Err err => Err (withMessage err "failed to create sub-volume")
          | Ok volume => Ok volume
          end
      end in
  match chosen with
  | Err err => (allocation, Some err)
  | Ok volume =>
      match CreateNamespace volume nsID (mkNamespace "" size mode) with
      | Some err =>
          (allocation,
           Some (withMessage err
             ("failed to create namespace directory: '" ++ vol_Path volume ++ "/" ++ nsID ++ "'")))
      | None => (mkAllocation (vol_Name volume) (vol_Path volume), None)
      end
  end.

Definition Allocate2 (s : storageModule) (nsID diskType : string)
    (size : Z) (mode : string) : Allocation * option error :=
  let allocation := zeroAllocation in
  match findPools nsID diskType allocation (volumes s) with
  | Return r => r
  | Continue _ =>
      match searchPools diskType size allocation (volumes s) [] with
      | Return r => r
      | Continue candidates =>
          allocateOn s nsID diskType size mode allocation candidates
      end
  end.

Context {Q : Quota}.

(** What [Allocate] returns, [(name, path, err)], with the [Limit] calls it
  made before. *)
Definition Allocated : Type := (list LimitCall * (string * string * option error))%type.

(** The volume loop of [Allocate] (lines 291-313); [None] when the loop
  ends without returning. *)
Fixpoint Allocate_volumes (size : Z) (vols : list Volume) : option Allocated :=
  match vols with
  | [] => None
  | volume :: rest =>
      if negb (String.prefix zdbPoolPrefix (vol_Name volume))
      then Allocate_volumes size rest
      else
        match vol_Usage volume with
        | Err err =>
            Some ([], ("", "",
                   Some (withMessage err
                           ("failed to read usage of volume " ++ vol_Name volume))))
        | Ok usage =>
            let call : LimitCall := (volume, uint64 (Size usage + size)) in
            match vol_Limit volume (uint64 (Size usage + size)) with
            | Some err =>
                Some ([call], ("", "",
                       Some (withMessage err
                               ("failed to grow limit of volume " ++ vol_Name volume))))
            | None => Some ([call], (vol_Name volume, vol_Path volume, None))
            end
        end
  end.

(** The pool loop of [Allocate] (lines 263-314). *)
Fixpoint Allocate_pools (diskType : string) (size : Z) (pools : list Pool)
  : option Allocated :=
  match pools with
  | [] => None
  | pool :: rest =>
      if negb (String.eqb (pool_Type pool) diskType)
      then Allocate_pools diskType size rest
      else
        match pool_Usage pool with
        | Err err =>
            Some ([], ("", "",
                   Some (withMessage err ("failed to read usage of pool " ++ pool_Name pool))))
        | Ok usage =>
            match pool_Reserved pool with
            | Err err =>
                Some ([], ("", "",
                       Some (withMessage err
                               ("failed to read reserved size of pool " ++ pool_Name pool))))
            | Ok reserved =>
                if Size usage <? uint64 (reserved + size)
                then Allocate_pools diskType size rest
                else
                  match pool_Volumes pool with
                  | Err err =>
                      Some ([], ("", "",
                             Some (withMessage err
                                     ("failed to list volume on pool " ++ pool_Name pool))))
                  | Ok vols =>
                      match Allocate_volumes size vols with
                      | Some r => Some r
                      | None => Allocate_pools diskType size rest
                      end
                  end
            end
        end
  end.

(** [func (s *storageModule) Allocate(diskType, size, mode)] *)
Definition Allocate (s : storageModule) (diskType : string) (size : Z)
    (mode : string) : Allocated :=
  match Allocate_pools diskType size (volumes s) with
  | Some r => r
  | None =>
      match genZDBPoolName with
      | Err err =>
          ([], ("", "", Some (withMessage err "failed to generate new sub-volume name")))
      | Ok name =>
          match createSubvol s size name diskType with
          | Err err => ([], ("", "", Some (withMessage err "failed to create sub-volume")))
          | Ok volume => ([], (vol_Name volume, vol_Path volume, None))
          end
      end
  end.

(** The inner loop of [Claim] (lines 347-352): the first volume of that
  name. *)
Fixpoint Claim_volumes (name : string) (vols : list Volume) : option Volume :=
  match vols with
  | [] => None
  | volume :: rest =>
      if String.eqb (vol_Name volume) name then Some volume
      else Claim_volumes name rest
  end.

(** The outer loop of [Claim] (lines 340-357): it stops at the first pool
  holding a volume of that name, or at a pool that cannot list. *)
Fixpoint Claim_pools (name : string) (pools : list Pool) : Result (option Volume) :=
  match pools with
  | [] => Ok None
  | pool :: rest =>
      match pool_Volumes pool with
      | Err err =>
          Err (withMessage err ("failed to list volume on pool " ++ pool_Name pool))
      | Ok vols =>
          match Claim_volumes name vols with
          | Some v => Ok (Some v)
          | None => Claim_pools name rest
          end
      end
  end.

(** [func (s *storageModule) Claim(name, size)], with the [Limit] calls it
  made.  The local [limit] is computed and clamped, and not used. *)
Definition Claim (s : storageModule) (name : string) (size : Z)
  : list LimitCall * option error :=
  match Claim_pools name (volumes s) with
  | Err err => ([], Some err)
  | Ok None => ([], Some (errorString ("volume named " ++ name ++ " not found")))
  | Ok (Some v) =>
      match vol_Usage v with
      | Err err => ([], Some err)
      | Ok usage =>
          let limit := uint64 (Size usage - size) in
          let limit := if limit <=? 0 then 1 else limit in
          match vol_Limit v (uint64 (Size usage - size)) with
          | Some err =>
              ([(v, uint64 (Size usage - size))],
               Some (withMessage err ("failed to grow limit of volume " ++ vol_Name v)))
          | None => ([(v, uint64 (Size usage - size))], None)
          end
      end
  end.

End Zdb.
End storage.

(** ** A concrete network and host, for the closed examples *)
Module Scenario.
Import modules.

Fixpoint bytes_eqb (a b : list Z) : bool :=
  match a, b with
  | [], [] => true
  | x :: a', y :: b' => (x =? y) && bytes_eqb a' b'
  | _, _ => false
  end.

Definition IPNet_eqb (m n : net.IPNet) : bool :=
  bytes_eqb (net.ipnet_IP m) (net.ipnet_IP n)
  && bytes_eqb (net.ipnet_Mask m) (net.ipnet_Mask n).

Definition Route_eqb (r s : netlink.Route) : bool :=
  IPNet_eqb (netlink.Dst r) (netlink.Dst s)
  && bytes_eqb (netlink.Gw r) (netlink.Gw s)
  && (netlink.LinkIndex r =? netlink.LinkIndex s).

(** 2001:db8:0:n::/64 *)
Definition prefixN (n : Z) : net.IPNet :=
  net.mkIPNet [32; 1; 13; 184; 0; 0; 0; n; 0; 0; 0; 0; 0; 0; 0; 0]
    (net.CIDRMask 64 128).

(** fe80::n/64 *)
Definition linkLocalN (n : Z) : net.IPNet :=
  net.mkIPNet [254; 128; 0; 0; 0; 0; 0; 0; 0; 0; 0; 0; 0; 0; 0; n]
    (net.CIDRMask 64 128).

Fixpoint lookup {A B : Type} (eqb : A -> A -> bool) (k : A)
    (table : list (A * B)) (default : B) : B :=
  match table with
  | [] => default
  | (k', v) :: rest => if eqb k k' then v else lookup eqb k rest default
  end.

(** The text conversions of package net on the addresses of this
  scenario, tabulated with the texts Go prints and parses for them. *)
Definition sampleText : net.Text := {|
    net.IP_String := fun ip =>
      lookup bytes_eqb ip
        [ ([192; 0; 2; 1], "192.0.2.1");
          ([192; 0; 2; 2], "192.0.2.2");
          ([32; 1; 13; 184; 0; 0; 0; 0; 0; 0; 0; 0; 0; 0; 0; 1], "2001:db8::1");
          ([], "<nil>") ] "?";
    net.IPNet_String := fun n =>
      lookup IPNet_eqb n
        [ (prefixN 1, "2001:db8:0:1::/64");
          (prefixN 2, "2001:db8:0:2::/64");
          (prefixN 3, "2001:db8:0:3::/64");
          (linkLocalN 1, "fe80::1/64");
          (linkLocalN 2, "fe80::2/64");
          (linkLocalN 3, "fe80::3/64") ] "<nil>";
    net.ParseIP := fun s =>
      lookup String.eqb s
        [ ("::", [0; 0; 0; 0; 0; 0; 0; 0; 0; 0; 0; 0; 0; 0; 0; 0]);
          ("0.0.0.0", net.IPv4 0 0 0 0);
          ("fe80::0001", [254; 128; 0; 0; 0; 0; 0; 0; 0; 0; 0; 0; 0; 0; 0; 1]);
          ("fe80::0002", [254; 128; 0; 0; 0; 0; 0; 0; 0; 0; 0; 0; 0; 0; 0; 2]);
          ("fe80::0003", [254; 128; 0; 0; 0; 0; 0; 0; 0; 0; 0; 0; 0; 0; 0; 3]);
          ("10.0.1.0", net.IPv4 10 0 1 0);
          ("10.0.2.0", net.IPv4 10 0 2 0);
          ("10.0.3.0", net.IPv4 10 0 3 0);
          ("172.16.0.1", net.IPv4 172 16 0 1);
          ("172.16.0.2", net.IPv4 172 16 0 2);
          ("172.16.0.3", net.IPv4 172 16 0 3) ] []
  |}.

Definition hexDigit (n : Z) : string :=
  String.substring (Z.to_nat n) 1 "0123456789abcdef".

(** [%x] on one byte: two lower-case digits. *)
Definition hexByte (b : Z) : string := hexDigit (b / 16) ++ hexDigit (b mod 16).

(** Modelled from the spec: a Nibble derivation (package zosip is not
  among the sources) that is deterministic and stateless as section 3
  asks: it keeps bytes 6 and 7 of the prefix address, prints them in hex
  for the token, returns them as the IPv4 octet pair, and fails on an
  address that is not 16 bytes long. *)
Definition sampleNibble : zosip.Lib := {|
    zosip.Nibble := (list Z * Z)%type;
    zosip.NewNibble := fun prefix allocNr =>
      (firstn 2 (skipn 6 (net.ipnet_IP prefix)), allocNr);
    zosip.Hex := fun n => String.concat "" (map hexByte (fst n));
    zosip.ToV4 := fun n =>
      match fst n with
      | [a; b] => Ok (a, b)
      | _ => Err (errorString "invalid prefix")
      end;
    zosip.NetworkName := fun n =>
      "net-" ++ String.concat "" (map hexByte (fst n)) ++ "-" ++ itoa (snd n);
    zosip.WiregardName := fun n =>
      "wg-" ++ String.concat "" (map hexByte (fst n)) ++ "-" ++ itoa (snd n)
  |}.

(** A host whose kernel refuses a route it already has ([EEXIST]) and
  whose address assignment accepts an address already assigned. *)
Record Host : Type := mkHost {
    keys : list (string * string);
    addrs : list string;
    wgConf : option (string * list wireguard.Peer);
    table : list netlink.Route
  }.

Definition sampleOS : host.OS := {|
    host.World := Host;
    host.NetNS := string;
    host.Key := string;
    host.Wireguard := string;
    host.namespace_GetByName := fun name w => (w, Ok name);
    host.NetNS_Close := fun _ w => w;
    host.NetNS_Set := fun _ w => (w, Ok tt);
    host.NetNS_Unset := fun _ w => w;
    host.wireguard_LoadKey := fun path w =>
      (w, lookup String.eqb path
            (map (fun kv => (fst kv, Ok (snd kv))) (keys w)) (Err ErrNotExist));
    host.wireguard_GenerateKey := fun path w =>
      (mkHost ((path, "key:" ++ path) :: keys w) (addrs w) (wgConf w) (table w),
       Ok ("key:" ++ path));
    host.Key_String := fun k => k;
    host.wireguard_GetByName := fun name w => (w, Ok name);
    host.SetAddr := fun _ cidr w =>
      if existsb (String.eqb cidr) (addrs w) then (w, Ok tt)
      else (mkHost (keys w) (cidr :: addrs w) (wgConf w) (table w), Ok tt);
    host.Configure := fun _ key peers w =>
      (mkHost (keys w) (addrs w) (Some (key, peers)) (table w), Ok tt);
    host.Attrs_Index := fun _ => 7;
    host.netlink_RouteAdd := fun route w =>
      if existsb (Route_eqb route) (table w) then (w, Err ErrExist)
      else (mkHost (keys w) (addrs w) (wgConf w) (route :: table w), Ok tt);
    host.filepath_Join := fun dir name => dir ++ "/" ++ name
  |}.

Definition emptyHost : Host := mkHost [] [] None [].

Definition wgPeerTo (n : Z) (ip : net.IP) : Peer :=
  mkPeer ConnTypeWireguard (prefixN n) (mkWireguard ip 51820 ("pubkey" ++ itoa n)).

(** Resource A: public on both families, prefix 2001:db8:0:1::/64. *)
Definition nodeA : NodeID := mkNodeID "A" ReachabilityV4Public ReachabilityV6Public.
(** Resource B: hidden, prefix 2001:db8:0:2::/64. *)
Definition nodeB : NodeID := mkNodeID "B" ReachabilityV4Hidden ReachabilityV6ULA.
(** Resource C: IPv6 public but IPv4 hidden, prefix 2001:db8:0:3::/64. *)
Definition nodeC : NodeID := mkNodeID "C" ReachabilityV4Hidden ReachabilityV6Public.

Definition peerA : Peer := wgPeerTo 1 [192; 0; 2; 1].
Definition peerB : Peer := wgPeerTo 2 [].
Definition peerC : Peer := wgPeerTo 3 [192; 0; 2; 2].

Definition resA : NetResource := mkNetResource nodeA (prefixN 1) (linkLocalN 1) [peerB; peerC].
Definition resB : NetResource := mkNetResource nodeB (prefixN 2) (linkLocalN 2) [peerA; peerC].
Definition resC : NetResource := mkNetResource nodeC (prefixN 3) (linkLocalN 3) [peerA; peerB].

(** The network of A, B and C with exit A, allocation number 0. *)
Definition network0 : Network := mkNetwork [resA; resB; resC] resA 0.

(** B as above, but reaching the exit over a connection that is not a
  WireGuard tunnel. *)
Definition foreignPeerA : Peer :=
  mkPeer (ConnTypeOther "ipsec") (prefixN 1) (mkWireguard [192; 0; 2; 1] 500 "").

Definition resB_foreign : NetResource :=
  mkNetResource nodeB (prefixN 2) (linkLocalN 2) [foreignPeerA].

(** B knowing only C: the exit A is missing from its peers. *)
Definition resB_noexit : NetResource :=
  mkNetResource nodeB (prefixN 2) (linkLocalN 2) [peerC].

(** The exit A with its own prefix among its peers. *)
Definition resA_self : NetResource :=
  mkNetResource nodeA (prefixN 1) (linkLocalN 1) [peerA; peerB].

Definition network_self : Network := mkNetwork [resA_self; resB] resA_self 0.

(** The default-route plan of B (exit A) under the tabulated conversions
  and the nibble above, and the host after it was applied once. *)
Definition planB : network.Plan :=
  @network.prepareNonExitNode sampleText sampleNibble resB network0.

Definition appliedOnce : Host :=
  fst (@network.configWG sampleText sampleNibble sampleOS resB network0
         (fst (fst planB)) (snd (fst planB)) "/var/wg" emptyHost).

(** The storage of the allocator examples: one SSD pool of 100 units with
  two zdb volumes; zdb1 already holds the namespace ns1 of size 60, zdb2
  holds none. *)
Definition sampleFS : storage.FS := {|
    storage.File := string;
    storage.filepath_Join := String.concat "/";
    storage.os_Open := fun path =>
      if String.eqb path "/mnt/zdb1/ns1/.info" then Ok path else Err ErrNotExist;
    storage.os_MkdirAll := fun _ => None;
    storage.os_Create := fun path => Ok path;
    storage.json_Decode := fun _ info =>
      (storage.mkNamespace (storage.ns_ID info) 60 "seq", None);
    storage.json_Encode := fun _ _ => None;
    storage.ioutil_ReadDir := fun path =>
      if String.eqb path "/mnt/zdb1" then Ok [storage.mkFileInfo "ns1" true] else Ok [];
    storage.uuid_NewRandom := Ok "0000";
    storage.createSubvol := fun _ _ name _ => Ok (storage.mkVolume name ("/mnt/" ++ name));
    storage.sort_Slice := fun _ l => l
  |}.

Definition zdb1 : storage.Volume := storage.mkVolume "zdb1" "/mnt/zdb1".
Definition zdb2 : storage.Volume := storage.mkVolume "zdb2" "/mnt/zdb2".

Definition pool0 : storage.Pool :=
  storage.mkPool "pool0" "SSD" (Ok [zdb1; zdb2]) (Ok (storage.mkUsage 100)).

Definition storage0 : storage.storageModule := storage.mkStorage [pool0].

End Scenario.

(** ** The properties as the design document words them *)
Module Claims.
Import modules network.

Section Statements.
Context {NT : net.Text} {NL : zosip.Lib}.

(** Two lists of prefix strings share no element. *)
Definition disjoint (l1 l2 : list string) : Prop :=
  forall s, ~ (In s l1 /\ In s l2).

(** The partition of a resource list is disjoint. *)
Definition partition_disjoint (resources : list NetResource) : Prop :=
  disjoint (publicPrefixes resources) (hiddenPrefixes resources).

(** [prefix] is the prefix of a resource classified as Hidden. *)
Definition hidden_prefix (network : Network) (prefix : string) : Prop :=
  exists res, In res (net_Resources network)
              /\ isHidden (res_NodeID res) = true /\ resPrefix res = prefix.

(** [prefix] is the prefix of a resource classified as Public. *)
Definition public_prefix (network : Network) (prefix : string) : Prop :=
  exists res, In res (net_Resources network)
              /\ isPublic (res_NodeID res) = true /\ resPrefix res = prefix.

(** The destination of a route, as a prefix string. *)
Definition routePrefix (r : netlink.Route) : string :=
  net.IPNet_String (netlink.Dst r).

(** The prefix a per-peer entry is scoped to: its third allowed-IP. *)
Definition entryPrefix (wp : wireguard.Peer) : string :=
  nth 2 (wireguard.AllowedIPs wp) "".

(** Hidden planning as the document has it: every route leads to a
  hidden prefix, and an entry with an endpoint is a public one. *)
Definition hidden_routes_only (localResource : NetResource)
    (network : Network) : Prop :=
  let '(peers, routes, _) := prepareHidden localResource network in
  (forall r, In r routes -> hidden_prefix network (routePrefix r))
  /\ (forall wp, In wp peers -> wireguard.Endpoint wp <> "" ->
        public_prefix network (entryPrefix wp)).

(** The peers of the local resource that are WireGuard tunnels to
  another prefix: the ones the peer loops work on. *)
Definition included (localResource : NetResource) (p : Peer) : bool :=
  ConnType_eqb (peer_Type p) ConnTypeWireguard
  && negb (String.eqb (peerPrefix p) (resPrefix localResource)).

(** Public planning, entry by entry: [wp] is the entry of [p], with an
  endpoint exactly when [p]'s prefix is in the public partition. *)
Definition public_entry (network : Network) (p : Peer)
    (wp : wireguard.Peer) : Prop :=
  wireguard.PublicKey wp = conn_Key (peer_Connection p)
  /\ entryPrefix wp = peerPrefix p
  /\ (wireguard.Endpoint wp <> "" <->
        In (peerPrefix p) (publicPrefixes (net_Resources network)))
  /\ (wireguard.Endpoint wp <> "" -> wireguard.Endpoint wp = endpoint p).

(** [r] is the route to [p]'s prefix via [p]'s link-local address. *)
Definition link_local_route (network : Network) (p : Peer)
    (r : netlink.Route) : Prop :=
  netlink.Dst r = peer_Prefix p
  /\ netlink.Gw r =
       net.ParseIP ("fe80::" ++
         zosip.Hex (zosip.NewNibble (peer_Prefix p) (net_AllocationNR network))).

(** A peer over a WireGuard tunnel. *)
Definition isTunnel (p : Peer) : bool :=
  ConnType_eqb (peer_Type p) ConnTypeWireguard.

(** The local resource with the peers that are not WireGuard tunnels
  taken out of its list. *)
Definition tunnelsOnly (localResource : NetResource) : NetResource :=
  mkNetResource (res_NodeID localResource) (res_Prefix localResource)
    (res_LinkLocal localResource)
    (filter isTunnel (res_Peers localResource)).

(** The entry [prepareNonExitNode] makes of the Exit peer. *)
Definition exitEntry (exitPeer : Peer) : wireguard.Peer :=
  wireguard.mkPeer (conn_Key (peer_Connection exitPeer)) (endpoint exitPeer)
    ["0.0.0.0/0"; "::/0"].

(** The nibble of a peer's prefix in a network. *)
Definition peerNibble (network : Network) (p : Peer) : zosip.Nibble :=
  zosip.NewNibble (peer_Prefix p) (net_AllocationNR network).

(** [wp] is the per-peer entry of [p], with [ep p] for endpoint. *)
Definition entry_with (network : Network) (ep : Peer -> string) (p : Peer)
    (wp : wireguard.Peer) : Prop :=
  exists a b,
    zosip.ToV4 (peerNibble network p) = Ok (a, b)
    /\ wp = wireguard.mkPeer (conn_Key (peer_Connection p)) (ep p)
              (peerAllowedIPs (peerNibble network p) a b p).

(** The route of a per-peer entry. *)
Definition routeTo (network : Network) (p : Peer) : netlink.Route :=
  peerRoute (peerNibble network p) p.

(** [wp] is the per-peer entry of a tunnel peer of the local list whose
  prefix is not the local one: that peer's key, its endpoint or none, and
  its three allowed-IPs, the last of them its prefix. *)
Definition entry_of_other_peer (localResource : NetResource)
    (network : Network) (wp : wireguard.Peer) : Prop :=
  exists p a b,
    In p (res_Peers localResource)
    /\ isTunnel p = true
    /\ peerPrefix p <> resPrefix localResource
    /\ zosip.ToV4 (peerNibble network p) = Ok (a, b)
    /\ wireguard.PublicKey wp = conn_Key (peer_Connection p)
    /\ (wireguard.Endpoint wp = "" \/ wireguard.Endpoint wp = endpoint p)
    /\ wireguard.AllowedIPs wp = peerAllowedIPs (peerNibble network p) a b p.

(** [r] is the route to a tunnel peer of the local list whose prefix is
  not the local one. *)
Definition route_of_other_peer (localResource : NetResource)
    (network : Network) (r : netlink.Route) : Prop :=
  exists p,
    In p (res_Peers localResource)
    /\ isTunnel p = true
    /\ peerPrefix p <> resPrefix localResource
    /\ r = routeTo network p.

(** No self-peering in a plan: every entry is the entry of another peer
  and is scoped to a prefix other than the local one, and every route is
  the route of another peer and leads to a prefix other than the local
  one. *)
Definition no_self_peering (localResource : NetResource) (network : Network)
    (plan : Plan) : Prop :=
  let '(peers, routes, _) := plan in
  (forall wp, In wp peers ->
     entry_of_other_peer localResource network wp
     /\ entryPrefix wp <> resPrefix localResource)
  /\ (forall r, In r routes ->
        route_of_other_peer localResource network r
        /\ routePrefix r <> resPrefix localResource).

End Statements.

Section ApplyStatements.
Context {NT : net.Text} {NL : zosip.Lib} {H : host.OS}.

(** Applying a plan a second time, on the world the first application
  left, succeeds whenever the first did. *)
Definition reapply_succeeds (localResource : NetResource)
    (network : Network) (wgPeers : list wireguard.Peer)
    (routes : list netlink.Route) (storageDir : string)
    (w : host.World) : Prop :=
  let first := configWG localResource network wgPeers routes storageDir w in
  snd first = Ok tt ->
  snd (configWG localResource network wgPeers routes storageDir (fst first)) = Ok tt.

(** The route as the handler hands it to [RouteAdd]. *)
Definition stamped (wg : host.Wireguard) (route : netlink.Route)
  : netlink.Route :=
  netlink.mkRoute (netlink.Dst route) (netlink.Gw route) (host.Attrs_Index wg).

End ApplyStatements.
End Claims.

(** ** Further statements and sample values *)
Module Properties.
Import modules network Claims.

Section Statements.
Context {NT : net.Text} {NL : zosip.Lib}.

(** A plan that carries an error carries nothing else. *)
Definition all_or_nothing (plan : Plan) : Prop :=
  let '(peers, routes, err) := plan in
  err <> None -> peers = [] /\ routes = [].

(** The entry has an endpoint. *)
Definition hasEndpoint (wp : wireguard.Peer) : bool :=
  negb (String.eqb (wireguard.Endpoint wp) "").

(** The route with its interface index set to [i]. *)
Definition withIndex (i : Z) (r : netlink.Route) : netlink.Route :=
  netlink.mkRoute (netlink.Dst r) (netlink.Gw r) i.

End Statements.

(** The namespace under [ns] on volume [v] can be read: [GetNamespace]
  returns no error. *)
Definition readable {F : storage.FS} (v : storage.Volume) (ns : string) : bool :=
  match snd (storage.GetNamespace v ns) with
  | None => true
  | Some _ => false
  end.

(** The volume does not hold the namespace [nsID]: it is not a zdb volume,
  or reading the namespace reports that it does not exist. *)
Definition lacks {F : storage.FS} (nsID : string) (v : storage.Volume) : Prop :=
  storage.isZdbVolume v = false
  \/ exists e, snd (storage.GetNamespace v nsID) = Some e /\ os_IsNotExist e = true.

(** No volume of the pool can hold the namespace for that disk type: the
  pool is of another type, or it lists its volumes and each lacks it. *)
Definition pool_lacks {F : storage.FS} (nsID diskType : string)
    (pool : storage.Pool) : Prop :=
  storage.pool_Type pool <> diskType
  \/ exists vols,
       storage.pool_Volumes pool = Ok vols
       /\ forall v, In v vols -> lacks nsID v.

(** The volume cannot take [size] more in a pool of that usage: it is not
  a zdb volume, or its namespaces are listed and their total plus the
  size, as a uint64, exceeds the pool size. *)
Definition too_small {F : storage.FS} (size : Z) (usage : storage.Usage)
    (v : storage.Volume) : Prop :=
  storage.isZdbVolume v = false
  \/ exists nss,
       storage.ListNamespaces v = Ok nss
       /\ storage.Size usage < storage.uint64 (storage.Total nss + size).

(** The pool offers no volume for the request: it is of another type, or
  its usage and volumes are read and every volume is too small. *)
Definition pool_too_small {F : storage.FS} (diskType : string) (size : Z)
    (pool : storage.Pool) : Prop :=
  storage.pool_Type pool <> diskType
  \/ exists usage vols,
       storage.pool_Usage pool = Ok usage
       /\ storage.pool_Volumes pool = Ok vols
       /\ forall v, In v vols -> too_small size usage v.

(** [Allocate] passes over the pool: it is of another type, or its
  reserved size leaves no room for the request, or it lists no zdb
  volume. *)
Definition pool_passed_over {Q : storage.Quota} (diskType : string) (size : Z)
    (pool : storage.Pool) : Prop :=
  storage.pool_Type pool <> diskType
  \/ exists usage reserved,
       storage.pool_Usage pool = Ok usage
       /\ storage.pool_Reserved pool = Ok reserved
       /\ (storage.Size usage < storage.uint64 (reserved + size)
           \/ exists vols,
                storage.pool_Volumes pool = Ok vols
                /\ forall v, In v vols -> storage.isZdbVolume v = false).

(** No volume of the pool has the name: the pool lists its volumes and
  each has another name. *)
Definition pool_without (name : string) (pool : storage.Pool) : Prop :=
  exists vols,
    storage.pool_Volumes pool = Ok vols
    /\ forall v, In v vols -> storage.vol_Name v <> name.

(** A second file system: zdbfull holds the namespace big of size 95,
  zdb1 holds ns1 of size 60, every other directory is empty. *)
Definition sampleFS2 : storage.FS := {|
  storage.File := string;
  storage.filepath_Join := String.concat "/";
  storage.os_Open := fun path =>
    if String.eqb path "/mnt/zdb1/ns1/.info" then Ok path
    else if String.eqb path "/mnt/zdbfull/big/.info" then Ok path
    else Err ErrNotExist;
  storage.os_MkdirAll := fun _ => None;
  storage.os_Create := fun path => Ok path;
  storage.json_Decode := fun file info =>
    (storage.mkNamespace (storage.ns_ID info)
       (if String.eqb file "/mnt/zdbfull/big/.info" then 95 else 60) "seq", None);
  storage.json_Encode := fun _ _ => None;
  storage.ioutil_ReadDir := fun path =>
    if String.eqb path "/mnt/zdb1" then Ok [storage.mkFileInfo "ns1" true]
    else if String.eqb path "/mnt/zdbfull" then Ok [storage.mkFileInfo "big" true]
    else Ok [];
  storage.uuid_NewRandom := Ok "0000";
  storage.createSubvol := fun _ _ name _ => Ok (storage.mkVolume name ("/mnt/" ++ name));
  storage.sort_Slice := fun _ l => l
|}.

Definition dataVolume : storage.Volume := storage.mkVolume "data" "/mnt/data".
Definition zdbfull : storage.Volume := storage.mkVolume "zdbfull" "/mnt/zdbfull".
Definition zdbhdd : storage.Volume := storage.mkVolume "zdbhdd" "/mnt/zdbhdd".

(** An HDD pool with one empty zdb volume, then an SSD pool of 100 units
  with a volume that is not zdb, the full zdbfull, zdb1 and zdb2. *)
Definition poolHDD : storage.Pool :=
  storage.mkPool "hdd0" "HDD" (Ok [zdbhdd]) (Ok (storage.mkUsage 1000)).

Definition poolSSD : storage.Pool :=
  storage.mkPool "ssd0" "SSD"
    (Ok [dataVolume; zdbfull; Scenario.zdb1; Scenario.zdb2]) (Ok (storage.mkUsage 100)).

Definition storage1 : storage.storageModule := storage.mkStorage [poolHDD; poolSSD].

(** An SSD pool of 100 units whose only volume is not zdb, and one of 20
  units. *)
Definition poolPlain : storage.Pool :=
  storage.mkPool "ssd1" "SSD" (Ok [dataVolume]) (Ok (storage.mkUsage 100)).

Definition poolTight : storage.Pool :=
  storage.mkPool "ssd2" "SSD" (Ok [zdbfull]) (Ok (storage.mkUsage 20)).

Definition storage2 : storage.storageModule :=
  storage.mkStorage [poolHDD; poolTight; poolPlain; poolSSD].

(** A storage where no volume can take a request of 10 on SSD. *)
Definition storage3 : storage.storageModule :=
  storage.mkStorage [poolHDD; poolTight; poolPlain].

(** Two volumes of one name, after a pool that has none of that name. *)
Definition dupFirst : storage.Volume := storage.mkVolume "zdbdup" "/mnt/first".
Definition dupSecond : storage.Volume := storage.mkVolume "zdbdup" "/mnt/second".

Definition poolDup : storage.Pool :=
  storage.mkPool "ssd3" "SSD" (Ok [dataVolume; dupFirst; dupSecond])
    (Ok (storage.mkUsage 100)).

Definition storageDup : storage.storageModule :=
  storage.mkStorage [poolHDD; poolDup].

(** The sum of the sizes of a list of namespaces, unbounded. *)
Definition sizeSum (s : storage.zdbNamespaces) : Z :=
  fold_right Z.add 0 (map storage.ns_Size s).

(** The entries and routes the exit A of the scenario builds for its
  peers B and C. *)
Definition exitPlanA : list wireguard.Peer * list netlink.Route :=
  match @configureExitNetNR_loop Scenario.sampleText Scenario.sampleNibble
          Scenario.resA Scenario.network0
          (@hiddenPrefixes Scenario.sampleText (net_Resources Scenario.network0))
          (res_Peers Scenario.resA) [] [] with
  | Ok plan => plan
  | Err _ => ([], [])
  end.

(** The networker of node B. *)
Definition networkerB : networker := mkNetworker Scenario.nodeB.

(** Quota calls of the examples: every pool has 20 units reserved, every
  volume has a limit of 50, and [Limit] succeeds. *)
Definition sampleQuota : storage.Quota := {|
  storage.pool_Reserved := fun _ => Ok 20;
  storage.vol_Usage := fun _ => Ok (storage.mkUsage 50);
  storage.vol_Limit := fun _ _ => None
|}.

(** A storage whose only pool cannot list its volumes. *)
Definition storageBroken : storage.storageModule :=
  storage.mkStorage
    [storage.mkPool "pool1" "SSD" (Err (errorString "input/output error"))
       (Ok (storage.mkUsage 100))].

End Properties.

(** * Properties of the planner *)
Module PlannerFacts.
Import modules network Claims.

Section Facts.
Context {NT : net.Text} {NL : zosip.Lib}.

Lemma isIn_In (s : string) (l : list string) : isIn s l = true <-> In s l.
Proof.
  induction l as [|x l IH]; simpl.
  - split; [discriminate | tauto].
  - destruct (String.eqb_spec s x) as [->|Hne].
    + split; auto.
    + rewrite IH. split; [auto | intros [Heq|Hin]; [congruence | exact Hin]].
Qed.

Lemma publicPrefixes_from_app (output : list string) (rs : list NetResource) :
  publicPrefixes_from output rs
  = (output ++ map resPrefix (filter (fun r => isPublic (res_NodeID r)) rs))%list.
Proof.
  revert output. induction rs as [|r rs IH]; intros output; simpl.
  - now rewrite app_nil_r.
  - destruct (isPublic (res_NodeID r)); simpl; rewrite IH; auto.
    now rewrite <- app_assoc.
Qed.

Lemma hiddenPrefixes_from_app (output : list string) (rs : list NetResource) :
  hiddenPrefixes_from output rs
  = (output ++ map resPrefix (filter (fun r => isHidden (res_NodeID r)) rs))%list.
Proof.
  revert output. induction rs as [|r rs IH]; intros output; simpl.
  - now rewrite app_nil_r.
  - destruct (isHidden (res_NodeID r)); simpl; rewrite IH; auto.
    now rewrite <- app_assoc.
Qed.

Lemma In_publicPrefixes (s : string) (rs : list NetResource) :
  In s (publicPrefixes rs) <->
  exists r, In r rs /\ isPublic (res_NodeID r) = true /\ resPrefix r = s.
Proof.
  unfold publicPrefixes. rewrite publicPrefixes_from_app. simpl.
  rewrite in_map_iff. split.
  - intros (r & Hs & Hin). apply filter_In in Hin. exists r. tauto.
  - intros (r & Hin & Hp & Hs). exists r. split; [exact Hs|].
    apply filter_In. tauto.
Qed.

Lemma In_hiddenPrefixes (s : string) (rs : list NetResource) :
  In s (hiddenPrefixes rs) <->
  exists r, In r rs /\ isHidden (res_NodeID r) = true /\ resPrefix r = s.
Proof.
  unfold hiddenPrefixes. rewrite hiddenPrefixes_from_app. simpl.
  rewrite in_map_iff. split.
  - intros (r & Hs & Hin). apply filter_In in Hin. exists r. tauto.
  - intros (r & Hin & Hp & Hs). exists r. split; [exact Hs|].
    apply filter_In. tauto.
Qed.

(** A key that is injective on a list picks its element. *)
Lemma NoDup_map_In_inj {A B : Type} (f : A -> B) (l : list A) (x y : A) :
  NoDup (map f l) -> In x l -> In y l -> f x = f y -> x = y.
Proof.
  induction l as [|a l IH]; simpl; [tauto|].
  intros Hnd Hx Hy Hf. inversion Hnd as [|? ? Hnotin Hnd']; subst.
  destruct Hx as [->|Hx], Hy as [->|Hy]; auto.
  - exfalso. apply Hnotin. rewrite Hf. now apply in_map.
  - exfalso. apply Hnotin. rewrite <- Hf. now apply in_map.
Qed.

(** C4, as amended: on a resource list with pairwise distinct prefix
  strings in which no NodeID is both public (in one address family)
  and hidden (in the other), [publicPrefixes] and [hiddenPrefixes]
  share no prefix string. *)
Theorem partition_disjoint_unmixed (resources : list NetResource) :
  NoDup (map resPrefix resources) ->
  (forall r, In r resources ->
     isPublic (res_NodeID r) && isHidden (res_NodeID r) = false) ->
  partition_disjoint resources.
Proof.
  intros Hnd Hmix s [Hpub Hhid].
  apply In_publicPrefixes in Hpub. destruct Hpub as (r1 & Hin1 & Hp & Hs1).
  apply In_hiddenPrefixes in Hhid. destruct Hhid as (r2 & Hin2 & Hh & Hs2).
  assert (r1 = r2) as ->
    by (apply (NoDup_map_In_inj resPrefix resources); congruence).
  specialize (Hmix r2 Hin2). rewrite Hp, Hh in Hmix. discriminate.
Qed.

Lemma getPeer_none (prefix : string) (peers : list Peer) :
  (forall p, In p peers -> peerPrefix p <> prefix) ->
  getPeer prefix peers = Err (errorString "peer not found").
Proof.
  induction peers as [|p peers IH]; simpl; intros Hall; [reflexivity|].
  destruct (String.eqb_spec (peerPrefix p) prefix) as [Heq|_].
  - exfalso. apply (Hall p); auto.
  - apply IH. intros q Hq. apply Hall. now right.
Qed.

Lemma getPeer_Ok (prefix : string) (peers : list Peer) (p : Peer) :
  getPeer prefix peers = Ok p -> In p peers /\ peerPrefix p = prefix.
Proof.
  induction peers as [|q peers IH]; simpl; [discriminate|].
  destruct (String.eqb_spec (peerPrefix q) prefix) as [Heq|_].
  - intros [= ->]. auto.
  - intros Hget. destruct (IH Hget). auto.
Qed.

(** C8: when no peer of the local resource has the prefix of the
  network's Exit, [prepareNonExitNode] returns the error of [getPeer]
  with no peers and no routes. *)
Theorem prepareNonExitNode_missing_exit (localResource : NetResource)
    (network : Network) :
  (forall p, In p (res_Peers localResource) ->
     peerPrefix p <> resPrefix (net_Exit network)) ->
  prepareNonExitNode localResource network
  = ([], [], Some (errorString "peer not found")).
Proof.
  intros Hmissing. unfold prepareNonExitNode.
  now rewrite (getPeer_none _ _ Hmissing).
Qed.

Lemma To16_some (ip : net.IP) :
  (List.length ip = 4%nat \/ List.length ip = 16%nat) <-> net.To16 ip <> None.
Proof.
  unfold net.To16, net.IPv4len, net.IPv6len.
  destruct (Nat.eqb_spec (List.length ip) 4) as [H4|H4].
  - split; [discriminate | auto].
  - destruct (Nat.eqb_spec (List.length ip) 16) as [H16|H16].
    + split; [discriminate | auto].
    + split; [intros [?|?]; contradiction | congruence].
Qed.

(** C10: a peer whose connection address is 4 or 16 bytes long gets the
  bracketed endpoint ["[IP]:port"], IPv4 included; the unbracketed
  form is returned exactly for the other lengths (nil included). *)
Theorem endpoint_bracketed (peer : Peer) :
  let ip := conn_IP (peer_Connection peer) in
  let port := conn_Port (peer_Connection peer) in
  ((List.length ip = 4%nat \/ List.length ip = 16%nat) ->
     endpoint peer = "[" ++ net.IP_String ip ++ "]:" ++ itoa port)
  /\ (List.length ip <> 4%nat /\ List.length ip <> 16%nat ->
        endpoint peer = net.IP_String ip ++ ":" ++ itoa port).
Proof.
  cbv zeta. unfold endpoint.
  destruct (net.To16 (conn_IP (peer_Connection peer))) as [ip16|] eqn:H16.
  - split; [reflexivity|]. intros [H4 H6].
    assert (net.To16 (conn_IP (peer_Connection peer)) <> None) as Hs by congruence.
    apply To16_some in Hs. tauto.
  - split; [|reflexivity]. intros Hlen. apply To16_some in Hlen. contradiction.
Qed.

Lemma endpoint_nonempty (p : Peer) : endpoint p <> "".
Proof.
  unfold endpoint.
  destruct (net.To16 (conn_IP (peer_Connection p))); simpl; [discriminate|].
  destruct (net.IP_String (conn_IP (peer_Connection p))); simpl; discriminate.
Qed.

Lemma Forall2_In_r {A B : Type} (R : A -> B -> Prop) (l : list A) (l' : list B) (y : B) :
  Forall2 R l l' -> In y l' -> exists x, In x l /\ R x y.
Proof.
  induction 1 as [|x y' l l' HR _ IH]; simpl; [tauto|].
  intros [->|Hin]; [exists x; auto|].
  destruct (IH Hin) as (x' & Hx' & HR'). exists x'. auto.
Qed.

(** The peer loop of [preparePublic] either fails on [ToV4], with nothing
  returned, or appends one entry per included peer and one route per
  included peer other than the Exit. *)
Lemma preparePublic_loop_cases (localResource : NetResource) (network : Network)
    (pub : list string) (todo : list Peer) (peers : list wireguard.Peer)
    (routes : list netlink.Route) :
  (exists err,
     preparePublic_loop localResource network pub todo peers routes = ([], [], Some err))
  \/ (exists np,
        preparePublic_loop localResource network pub todo peers routes
        = ((peers ++ np)%list,
           (routes ++ map (routeTo network)
              (filter (fun p => included localResource p
                         && negb (String.eqb (peerPrefix p) (resPrefix (net_Exit network))))
                 todo))%list,
           None)
        /\ Forall2 (entry_with network
                      (fun p => if isIn (peerPrefix p) pub then endpoint p else ""))
             (filter (included localResource) todo) np).
Proof.
  revert peers routes. induction todo as [|p todo IH]; intros peers routes.
  - right. exists []. simpl. rewrite !app_nil_r. split; [reflexivity | constructor].
  - cbn [preparePublic_loop filter].
    replace (included localResource p)
      with (ConnType_eqb (peer_Type p) ConnTypeWireguard
            && negb (String.eqb (peerPrefix p) (resPrefix localResource)))
      by reflexivity.
    destruct (ConnType_eqb (peer_Type p) ConnTypeWireguard); cbn [negb andb];
      [|apply IH].
    destruct (String.eqb (peerPrefix p) (resPrefix localResource)); cbn [negb andb];
      [apply IH|].
    fold (peerNibble network p).
    destruct (zosip.ToV4 (peerNibble network p)) as [[a b]|err] eqn:Hv4;
      [|left; eauto].
    cbn [wireguard.PublicKey wireguard.AllowedIPs].
    set (wgPeer := if isIn (peerPrefix p) pub then _ else _).
    assert (entry_with network
              (fun p => if isIn (peerPrefix p) pub then endpoint p else "") p wgPeer)
      as Hentry.
    { exists a, b. split; [exact Hv4|]. subst wgPeer.
      destruct (isIn (peerPrefix p) pub); reflexivity. }
    destruct (String.eqb (peerPrefix p) (resPrefix (net_Exit network))); cbn [negb map].
    + destruct (IH (peers ++ [wgPeer])%list routes) as [[err He]|(np & He & HF)];
        [left; eauto | right].
      exists (wgPeer :: np). rewrite He, <- app_assoc. split; [reflexivity|].
      constructor; assumption.
    + destruct (IH (peers ++ [wgPeer])%list (routes ++ [peerRoute (peerNibble network p) p])%list)
        as [[err He]|(np & He & HF)]; [left; eauto | right].
      exists (wgPeer :: np). rewrite He, <- !app_assoc. split; [reflexivity|].
      constructor; assumption.
Qed.

(** The peer loop of [prepareHidden] either fails on [ToV4] or appends one
  entry, with its endpoint, and one route per included peer of the public
  partition. *)
Lemma prepareHidden_loop_cases (localResource : NetResource) (network : Network)
    (pub : list string) (todo : list Peer) (peers : list wireguard.Peer)
    (routes : list netlink.Route) :
  let kept := filter (fun p => included localResource p && isIn (peerPrefix p) pub) todo in
  (exists err,
     prepareHidden_loop localResource network pub todo peers routes = ([], [], Some err))
  \/ (exists np,
        prepareHidden_loop localResource network pub todo peers routes
        = ((peers ++ np)%list, (routes ++ map (routeTo network) kept)%list, None)
        /\ Forall2 (entry_with network endpoint) kept np).
Proof.
  cbv zeta. revert peers routes. induction todo as [|p todo IH]; intros peers routes.
  - right. exists []. simpl. rewrite !app_nil_r. split; [reflexivity | constructor].
  - cbn [prepareHidden_loop filter].
    replace (included localResource p)
      with (ConnType_eqb (peer_Type p) ConnTypeWireguard
            && negb (String.eqb (peerPrefix p) (resPrefix localResource)))
      by reflexivity.
    destruct (ConnType_eqb (peer_Type p) ConnTypeWireguard); cbn [negb andb];
      [|apply IH].
    destruct (String.eqb (peerPrefix p) (resPrefix localResource)); cbn [negb andb];
      [apply IH|].
    fold (peerNibble network p).
    destruct (zosip.ToV4 (peerNibble network p)) as [[a b]|err] eqn:Hv4;
      [|left; eauto].
    destruct (isIn (peerPrefix p) pub); [|apply IH].
    cbn [map].
    match goal with
    | |- context [prepareHidden_loop _ _ _ _ (peers ++ [?e])%list _] => set (wgPeer := e)
    end.
    destruct (IH (peers ++ [wgPeer])%list (routes ++ [peerRoute (peerNibble network p) p])%list)
      as [[err He]|(np & He & HF)]; [left; eauto | right].
    exists (wgPeer :: np). rewrite He, <- !app_assoc. split; [reflexivity|].
    constructor; [|assumption]. exists a, b. split; [exact Hv4 | reflexivity].
Qed.

(** The peer loop of [configureExitNetNR] either fails on [ToV4] or appends
  one entry, without endpoint, and one route per included peer of the
  hidden partition. *)
Lemma configureExitNetNR_loop_cases (localResource : NetResource)
    (network : Network) (hid : list string) (todo : list Peer)
    (peers : list wireguard.Peer) (routes : list netlink.Route) :
  let kept := filter (fun p => included localResource p && isIn (peerPrefix p) hid) todo in
  (exists err,
     configureExitNetNR_loop localResource network hid todo peers routes = Err err)
  \/ (exists np,
        configureExitNetNR_loop localResource network hid todo peers routes
        = Ok ((peers ++ np)%list, (routes ++ map (routeTo network) kept)%list)
        /\ Forall2 (entry_with network (fun _ => "")) kept np).
Proof.
  cbv zeta. revert peers routes. induction todo as [|p todo IH]; intros peers routes.
  - right. exists []. simpl. rewrite !app_nil_r. split; [reflexivity | constructor].
  - cbn [configureExitNetNR_loop filter].
    replace (included localResource p)
      with (ConnType_eqb (peer_Type p) ConnTypeWireguard
            && negb (String.eqb (peerPrefix p) (resPrefix localResource)))
      by reflexivity.
    destruct (ConnType_eqb (peer_Type p) ConnTypeWireguard); cbn [negb andb];
      [|apply IH].
    destruct (String.eqb (peerPrefix p) (resPrefix localResource)); cbn [negb andb];
      [apply IH|].
    destruct (isIn (peerPrefix p) hid); cbn [negb]; [|apply IH].
    fold (peerNibble network p).
    destruct (zosip.ToV4 (peerNibble network p)) as [[a b]|err] eqn:Hv4;
      [|left; eauto].
    cbn [map].
    match goal with
    | |- context [configureExitNetNR_loop _ _ _ _ (peers ++ [?e])%list _] => set (wgPeer := e)
    end.
    destruct (IH (peers ++ [wgPeer])%list (routes ++ [peerRoute (peerNibble network p) p])%list)
      as [[err He]|(np & He & HF)]; [left; eauto | right].
    exists (wgPeer :: np). rewrite He, <- !app_assoc. split; [reflexivity|].
    constructor; [|assumption]. exists a, b. split; [exact Hv4 | reflexivity].
Qed.

Lemma Forall2_map_r {A B : Type} (R : A -> B -> Prop) (f : A -> B) (l : list A) :
  (forall x, In x l -> R x (f x)) -> Forall2 R l (map f l).
Proof.
  induction l as [|x l IH]; simpl; intros HR; constructor; auto.
Qed.

Lemma included_true (localResource : NetResource) (p : Peer) :
  included localResource p = true ->
  peer_Type p = ConnTypeWireguard /\ peerPrefix p <> resPrefix localResource.
Proof.
  unfold included. intros Hinc. apply andb_prop in Hinc. destruct Hinc as [Hty Hself].
  split.
  - destruct (peer_Type p); [reflexivity | discriminate].
  - destruct (String.eqb_spec (peerPrefix p) (resPrefix localResource));
      [discriminate | assumption].
Qed.

Lemma entry_with_prefix (network : Network) (ep : Peer -> string) (p : Peer)
    (wp : wireguard.Peer) :
  entry_with network ep p wp ->
  wireguard.PublicKey wp = conn_Key (peer_Connection p)
  /\ wireguard.Endpoint wp = ep p
  /\ entryPrefix wp = peerPrefix p.
Proof.
  intros (a & b & _ & ->). unfold entryPrefix. simpl. auto.
Qed.

(** C7: when [preparePublic] succeeds, its entries are, in order, those of
  the tunnel peers with another prefix; an entry carries an endpoint if
  and only if its peer's prefix is in the public partition; and its routes
  are, in order, the link-local routes of those peers except the ones
  whose prefix is the Exit's. *)
Theorem preparePublic_endpoints_and_routes (localResource : NetResource)
    (network : Network) (peers : list wireguard.Peer)
    (routes : list netlink.Route) :
  preparePublic localResource network = (peers, routes, None) ->
  Forall2 (public_entry network)
    (filter (included localResource) (res_Peers localResource)) peers
  /\ Forall2 (link_local_route network)
       (filter (fun p => included localResource p
                  && negb (String.eqb (peerPrefix p) (resPrefix (net_Exit network))))
          (res_Peers localResource))
       routes.
Proof.
  unfold preparePublic. intros Hplan.
  destruct (preparePublic_loop_cases localResource network
              (publicPrefixes (net_Resources network)) (res_Peers localResource) [] [])
    as [[err He]|(np & He & HF)]; rewrite He in Hplan; [discriminate|].
  simpl in Hplan. injection Hplan as <- <-. split.
  - eapply Forall2_impl; [|exact HF]. intros p wp Hentry.
    apply entry_with_prefix in Hentry. destruct Hentry as (Hkey & Hep & Hpre).
    unfold public_entry. rewrite Hep, <- isIn_In.
    destruct (isIn (peerPrefix p) (publicPrefixes (net_Resources network))).
    + repeat split; auto. intros _. apply endpoint_nonempty.
    + repeat split; auto; congruence.
  - apply Forall2_map_r. intros p _. split; reflexivity.
Qed.

(** C2, as amended: the routes of [prepareHidden] lead to prefixes of the
  public partition, that is of resources classified as Public, and every
  entry it returns is the entry of such a prefix and carries an endpoint. *)
Theorem prepareHidden_public_partition (localResource : NetResource)
    (network : Network) :
  let '(peers, routes, _) := prepareHidden localResource network in
  (forall r, In r routes -> public_prefix network (routePrefix r))
  /\ (forall wp, In wp peers ->
        public_prefix network (entryPrefix wp) /\ wireguard.Endpoint wp <> "").
Proof.
  unfold prepareHidden.
  destruct (prepareHidden_loop_cases localResource network
              (publicPrefixes (net_Resources network)) (res_Peers localResource) [] [])
    as [[err He]|(np & He & HF)]; rewrite He.
  - split; intros ? [].
  - cbn [app]. split.
    + intros r Hr. apply in_map_iff in Hr. destruct Hr as (p & <- & Hp).
      apply filter_In in Hp. destruct Hp as [_ Hp]. apply andb_prop in Hp.
      apply In_publicPrefixes, isIn_In. exact (proj2 Hp).
    + intros wp Hwp. destruct (Forall2_In_r _ _ _ _ HF Hwp) as (p & Hp & Hentry).
      apply entry_with_prefix in Hentry. destruct Hentry as (_ & Hep & Hpre).
      rewrite Hep, Hpre. split; [|apply endpoint_nonempty].
      apply filter_In in Hp. destruct Hp as [_ Hp]. apply andb_prop in Hp.
      apply In_publicPrefixes, isIn_In. exact (proj2 Hp).
Qed.

(** Entries and routes built from included peers are those of other
  peers and never target the local prefix. *)
Lemma no_self_from_entries (localResource : NetResource) (network : Network)
    (ep : Peer -> string) (f g : Peer -> bool) (np : list wireguard.Peer)
    (e : option error) :
  (forall p, f p = true -> included localResource p = true) ->
  (forall p, g p = true -> included localResource p = true) ->
  (forall p, ep p = "" \/ ep p = endpoint p) ->
  Forall2 (entry_with network ep) (filter f (res_Peers localResource)) np ->
  no_self_peering localResource network
    (np, map (routeTo network) (filter g (res_Peers localResource)), e).
Proof.
  intros Hf Hg Hep HF. split.
  - intros wp Hwp. destruct (Forall2_In_r _ _ _ _ HF Hwp) as (p & Hp & Hentry).
    apply filter_In in Hp. destruct Hp as [Hin Hfp].
    apply Hf in Hfp. pose proof (included_true _ _ Hfp) as [_ Hother].
    apply andb_prop in Hfp. destruct Hfp as [Htunnel _].
    pose proof (entry_with_prefix _ _ _ _ Hentry) as (_ & _ & Hscope).
    destruct Hentry as (a & b & Hv4 & ->).
    split; [|rewrite Hscope; exact Hother].
    exists p, a, b. cbn [wireguard.PublicKey wireguard.Endpoint wireguard.AllowedIPs].
    repeat split; auto.
  - intros r Hr. apply in_map_iff in Hr. destruct Hr as (p & <- & Hp).
    apply filter_In in Hp. destruct Hp as [Hin Hgp].
    apply Hg in Hgp. pose proof (included_true _ _ Hgp) as [_ Hother].
    apply andb_prop in Hgp. destruct Hgp as [Htunnel _].
    split; [|exact Hother]. exists p. auto.
Qed.

Lemma no_self_nothing (localResource : NetResource) (network : Network)
    (e : option error) :
  no_self_peering localResource network ([], [], e).
Proof. split; intros ? []. Qed.

(** The plans of [preparePublic] and [prepareHidden] and the peer loop of
  [configureExitNetNR] hold only entries and routes of tunnel peers whose
  prefix is not the local resource's own, each entry scoped to that other
  prefix and each route leading to it.  [prepareNonExitNode], off the
  Exit, returns no entry of a peer with the local prefix either: its
  entries are those of a peer with the Exit's prefix; on the Exit it
  returns no route. *)
Theorem no_self_peering_in_peer_loops (localResource : NetResource)
    (network : Network) :
  no_self_peering localResource network (preparePublic localResource network)
  /\ no_self_peering localResource network (prepareHidden localResource network)
  /\ (forall peers routes,
        configureExitNetNR_loop localResource network
          (hiddenPrefixes (net_Resources network)) (res_Peers localResource) [] []
        = Ok (peers, routes) ->
        no_self_peering localResource network (peers, routes, None))
  /\ (resPrefix localResource <> resPrefix (net_Exit network) ->
      forall wp,
        In wp (fst (fst (prepareNonExitNode localResource network))) ->
        exists p,
          In p (res_Peers localResource)
          /\ peerPrefix p = resPrefix (net_Exit network)
          /\ peerPrefix p <> resPrefix localResource
          /\ wp = exitEntry p)
  /\ (resPrefix localResource = resPrefix (net_Exit network) ->
      snd (fst (prepareNonExitNode localResource network)) = []).
Proof.
  split; [|split; [|split; [|split]]].
  - unfold preparePublic.
    destruct (preparePublic_loop_cases localResource network
                (publicPrefixes (net_Resources network)) (res_Peers localResource) [] [])
      as [[err He]|(np & He & HF)]; rewrite He; [apply no_self_nothing|].
    cbn [app].
    eapply no_self_from_entries; [| | |exact HF].
    + intros p Hp. exact Hp.
    + intros p Hp. apply andb_prop in Hp. tauto.
    + intros p. cbv beta. destruct (isIn _ _); auto.
  - unfold prepareHidden.
    destruct (prepareHidden_loop_cases localResource network
                (publicPrefixes (net_Resources network)) (res_Peers localResource) [] [])
      as [[err He]|(np & He & HF)]; rewrite He; [apply no_self_nothing|].
    cbn [app].
    eapply no_self_from_entries; [| | |exact HF]; [| |auto];
      intros p Hp; apply andb_prop in Hp; tauto.
  - intros peers routes Hloop.
    destruct (configureExitNetNR_loop_cases localResource network
                (hiddenPrefixes (net_Resources network)) (res_Peers localResource) [] [])
      as [[err He]|(np & He & HF)]; rewrite He in Hloop; [discriminate|].
    cbn [app] in Hloop. injection Hloop as <- <-.
    eapply no_self_from_entries; [| | |exact HF]; [| |auto];
      intros p Hp; apply andb_prop in Hp; tauto.
  - intros Hoff wp. unfold prepareNonExitNode.
    destruct (getPeer (resPrefix (net_Exit network)) (res_Peers localResource))
      as [exitPeer|err] eqn:Hget; [|intros []].
    apply getPeer_Ok in Hget. destruct Hget as [Hin Hpre].
    assert (In wp [exitEntry exitPeer] ->
            exists p, In p (res_Peers localResource)
                      /\ peerPrefix p = resPrefix (net_Exit network)
                      /\ peerPrefix p <> resPrefix localResource
                      /\ wp = exitEntry p) as Hentry.
    { intros [<-|[]]. exists exitPeer. repeat split; auto. congruence. }
    destruct (negb _); [|exact Hentry].
    destruct (zosip.ToV4 _) as [[a b]|err]; [exact Hentry | intros []].
  - intros Hexit. unfold prepareNonExitNode.
    destruct (getPeer (resPrefix (net_Exit network)) (res_Peers localResource));
      [|reflexivity].
    rewrite Hexit, String.eqb_refl. reflexivity.
Qed.

Lemma preparePublic_loop_tunnels (l1 l2 : NetResource) (network : Network)
    (pub : list string) (todo : list Peer) (peers : list wireguard.Peer)
    (routes : list netlink.Route) :
  resPrefix l1 = resPrefix l2 ->
  preparePublic_loop l1 network pub (filter isTunnel todo) peers routes
  = preparePublic_loop l2 network pub todo peers routes.
Proof.
  intros Hpre. revert peers routes.
  induction todo as [|p todo IH]; intros peers routes; [reflexivity|].
  cbn [filter]. unfold isTunnel at 1.
  destruct (ConnType_eqb (peer_Type p) ConnTypeWireguard) eqn:Hty;
    cbn [preparePublic_loop]; rewrite Hty; cbn [negb]; [|apply IH].
  rewrite Hpre.
  destruct (String.eqb (peerPrefix p) (resPrefix l2)); [apply IH|].
  destruct (zosip.ToV4 _) as [[a b]|err]; [|reflexivity].
  destruct (String.eqb (peerPrefix p) (resPrefix (net_Exit network))); apply IH.
Qed.

Lemma prepareHidden_loop_tunnels (l1 l2 : NetResource) (network : Network)
    (pub : list string) (todo : list Peer) (peers : list wireguard.Peer)
    (routes : list netlink.Route) :
  resPrefix l1 = resPrefix l2 ->
  prepareHidden_loop l1 network pub (filter isTunnel todo) peers routes
  = prepareHidden_loop l2 network pub todo peers routes.
Proof.
  intros Hpre. revert peers routes.
  induction todo as [|p todo IH]; intros peers routes; [reflexivity|].
  cbn [filter]. unfold isTunnel at 1.
  destruct (ConnType_eqb (peer_Type p) ConnTypeWireguard) eqn:Hty;
    cbn [prepareHidden_loop]; rewrite Hty; cbn [negb]; [|apply IH].
  rewrite Hpre.
  destruct (String.eqb (peerPrefix p) (resPrefix l2)); [apply IH|].
  destruct (zosip.ToV4 _) as [[a b]|err]; [|reflexivity].
  destruct (isIn (peerPrefix p) pub); apply IH.
Qed.

Lemma configureExitNetNR_loop_tunnels (l1 l2 : NetResource) (network : Network)
    (hid : list string) (todo : list Peer) (peers : list wireguard.Peer)
    (routes : list netlink.Route) :
  resPrefix l1 = resPrefix l2 ->
  configureExitNetNR_loop l1 network hid (filter isTunnel todo) peers routes
  = configureExitNetNR_loop l2 network hid todo peers routes.
Proof.
  intros Hpre. revert peers routes.
  induction todo as [|p todo IH]; intros peers routes; [reflexivity|].
  cbn [filter]. unfold isTunnel at 1.
  destruct (ConnType_eqb (peer_Type p) ConnTypeWireguard) eqn:Hty;
    cbn [configureExitNetNR_loop]; rewrite Hty; cbn [negb]; [|apply IH].
  rewrite Hpre.
  destruct (String.eqb (peerPrefix p) (resPrefix l2)); [apply IH|].
  destruct (isIn (peerPrefix p) hid); cbn [negb]; [|apply IH].
  destruct (zosip.ToV4 _) as [[a b]|err]; [|reflexivity].
  apply IH.
Qed.

(** The three peer loops give the same result with the peers that are not
  WireGuard tunnels taken out of the local resource's list: such a peer
  adds no entry and no route there. *)
Lemma peer_loops_ignore_foreign (localResource : NetResource) (network : Network) :
  preparePublic (tunnelsOnly localResource) network = preparePublic localResource network
  /\ prepareHidden (tunnelsOnly localResource) network = prepareHidden localResource network
  /\ (forall hid,
        configureExitNetNR_loop (tunnelsOnly localResource) network hid
          (res_Peers (tunnelsOnly localResource)) [] []
        = configureExitNetNR_loop localResource network hid
            (res_Peers localResource) [] []).
Proof.
  unfold preparePublic, prepareHidden, tunnelsOnly. cbn [res_Peers net_Resources].
  split; [|split]; intros;
    [apply preparePublic_loop_tunnels | apply prepareHidden_loop_tunnels
    | apply configureExitNetNR_loop_tunnels]; reflexivity.
Qed.

(** What [prepareNonExitNode] returns once the Exit peer is found and its
  nibble converts: the Exit's entry and, unless the local resource has
  the Exit's prefix, three routes, the first of them with the mask
  [CIDRMask(64, 128)]. *)
Lemma prepareNonExitNode_found (localResource : NetResource) (network : Network)
    (exitPeer : Peer) (a b : Z) :
  getPeer (resPrefix (net_Exit network)) (res_Peers localResource) = Ok exitPeer ->
  zosip.ToV4 (peerNibble network exitPeer) = Ok (a, b) ->
  prepareNonExitNode localResource network
  = ([exitEntry exitPeer],
     if String.eqb (resPrefix localResource) (resPrefix (net_Exit network)) then []
     else
       [ netlink.mkRoute (net.mkIPNet (net.ParseIP "::") (net.CIDRMask 64 128))
           (net.ParseIP ("fe80::" ++ zosip.Hex (peerNibble network exitPeer))) 0;
         netlink.mkRoute
           (net.mkIPNet (net.ParseIP ("10." ++ itoa a ++ "." ++ itoa b ++ ".0"))
              (net.CIDRMask 24 32))
           (net.ParseIP ("172.16." ++ itoa a ++ "." ++ itoa b)) 0;
         netlink.mkRoute (net.mkIPNet (net.ParseIP "0.0.0.0") (net.CIDRMask 0 32))
           (net.ParseIP ("172.16." ++ itoa a ++ "." ++ itoa b)) 0 ],
     None).
Proof.
  intros Hget Hv4. unfold prepareNonExitNode. rewrite Hget.
  fold (peerNibble network exitPeer). rewrite Hv4.
  destruct (String.eqb (resPrefix localResource) (resPrefix (net_Exit network)));
    reflexivity.
Qed.

End Facts.
End PlannerFacts.

(** * The planner on the concrete network *)
Module ScenarioFacts.
Import modules network Claims PlannerFacts Scenario.

#[local] Existing Instance sampleText.
#[local] Existing Instance sampleNibble.

(** C1: for the hidden resource B of the scenario, whose Exit peer A is in
  its list, [prepareNonExitNode] returns three routes, but the IPv6 one
  has the mask [CIDRMask(64, 128)], a /64, and not the mask of the
  catch-all [::/0]. *)
Theorem prepareNonExitNode_ipv6_route_is_slash64 :
  snd (fst (prepareNonExitNode resB network0))
  = [ netlink.mkRoute (net.mkIPNet (net.ParseIP "::") (net.CIDRMask 64 128))
        (net.ParseIP "fe80::0001") 0;
      netlink.mkRoute (net.mkIPNet (net.ParseIP "10.0.1.0") (net.CIDRMask 24 32))
        (net.ParseIP "172.16.0.1") 0;
      netlink.mkRoute (net.mkIPNet (net.ParseIP "0.0.0.0") (net.CIDRMask 0 32))
        (net.ParseIP "172.16.0.1") 0 ]
  /\ net.CIDRMask 64 128 = [255; 255; 255; 255; 255; 255; 255; 255; 0; 0; 0; 0; 0; 0; 0; 0]
  /\ net.CIDRMask 64 128 <> net.CIDRMask 0 128.
Proof.
  split; [reflexivity|]. split; [reflexivity|]. vm_compute. discriminate.
Qed.

(** C2 fails as worded: planning for the hidden resource B returns a route
  to the prefix of A, and no resource with that prefix is Hidden. *)
Lemma prepareHidden_route_to_public_prefix : ~ hidden_routes_only resB network0.
Proof.
  unfold hidden_routes_only.
  set (plan := prepareHidden resB network0). vm_compute in plan. subst plan.
  cbv beta iota. intros [Hroutes _].
  destruct (Hroutes _ (or_introl eq_refl)) as (res & Hin & Hhid & Hpre).
  simpl in Hin. destruct Hin as [<-|[<-|[<-|[]]]];
    vm_compute in Hhid; vm_compute in Hpre; discriminate.
Qed.

(** C4 fails as worded: resource C is public over IPv6 and hidden over
  IPv4, and its prefix is in both sets. *)
Lemma partition_shares_mixed_prefix : ~ partition_disjoint (net_Resources network0).
Proof.
  intros Hdisjoint. apply (Hdisjoint "2001:db8:0:3::/64").
  split; right; left; reflexivity.
Qed.

(** The partition of A (public) and B (hidden) alone is disjoint. *)
Lemma partition_disjoint_unmixed_witness : partition_disjoint [resA; resB].
Proof.
  apply partition_disjoint_unmixed.
  - vm_compute. repeat constructor; simpl; intuition discriminate.
  - intros r [<-|[<-|[]]]; reflexivity.
Defined.

(** C5: B's only peer is the exit A, over a connection that is not a
  WireGuard tunnel; [prepareNonExitNode] still makes an entry and three
  routes of it, and without that peer it would return an error. *)
Theorem prepareNonExitNode_uses_foreign_peer :
  map peer_Type (res_Peers resB_foreign) = [ConnTypeOther "ipsec"]
  /\ fst (fst (prepareNonExitNode resB_foreign network0))
     = [wireguard.mkPeer "" "[192.0.2.1]:500" ["0.0.0.0/0"; "::/0"]]
  /\ List.length (snd (fst (prepareNonExitNode resB_foreign network0))) = 3%nat
  /\ prepareNonExitNode (tunnelsOnly resB_foreign) network0
     = ([], [], Some (errorString "peer not found")).
Proof. repeat split. Qed.

(** C6: the exit A lists a peer with its own prefix, as it lists B.
  [prepareNonExitNode] returns the entry of that very peer, with A's own
  key and endpoint, where [preparePublic], [prepareHidden] and the peer
  loop of [configureExitNetNR] return no entry for it on the same
  input. *)
Theorem prepareNonExitNode_exit_peers_with_itself :
  res_Peers resA_self = [peerA; peerB]
  /\ peerPrefix peerA = resPrefix resA_self
  /\ resPrefix resA_self = resPrefix (net_Exit network_self)
  /\ prepareNonExitNode resA_self network_self
     = ([wireguard.mkPeer "pubkey1" "[192.0.2.1]:51820" ["0.0.0.0/0"; "::/0"]],
        [], None)
  /\ conn_Key (peer_Connection peerA) = "pubkey1"
  /\ map wireguard.PublicKey (fst (fst (preparePublic resA_self network_self)))
     = ["pubkey2"]
  /\ map wireguard.PublicKey (fst (fst (prepareHidden resA_self network_self))) = []
  /\ configureExitNetNR_loop resA_self network_self
       (hiddenPrefixes (net_Resources network_self)) (res_Peers resA_self) [] []
     = Ok ([wireguard.mkPeer "pubkey2" ""
              ["fe80::0002/128"; "172.16.0.2/32"; "2001:db8:0:2::/64"]],
           [netlink.mkRoute (prefixN 2) (net.ParseIP "fe80::0002") 0]).
Proof. repeat split. Qed.

(** The exit A, listing itself: no default route, and in its public plan
  only the entry and the route of B.  Off the exit, B's default-route
  entry is that of A. *)
Lemma no_self_peering_in_peer_loops_witness :
  resPrefix resA_self = resPrefix (net_Exit network_self)
  /\ snd (fst (prepareNonExitNode resA_self network_self)) = []
  /\ no_self_peering resA_self network_self (preparePublic resA_self network_self)
  /\ resPrefix resB <> resPrefix (net_Exit network0)
  /\ (forall wp,
        In wp (fst (fst (prepareNonExitNode resB network0))) ->
        exists p, In p (res_Peers resB)
                  /\ peerPrefix p = resPrefix (net_Exit network0)
                  /\ peerPrefix p <> resPrefix resB
                  /\ wp = exitEntry p).
Proof.
  split; [reflexivity|]. split; [|split; [|split]].
  - apply (proj2 (proj2 (proj2 (proj2
             (no_self_peering_in_peer_loops resA_self network_self))))).
    reflexivity.
  - apply (proj1 (no_self_peering_in_peer_loops resA_self network_self)).
  - vm_compute. discriminate.
  - apply (proj1 (proj2 (proj2 (proj2 (no_self_peering_in_peer_loops resB network0))))).
    vm_compute. discriminate.
Defined.

(** The public plan of A in the scenario: B without endpoint, C with one,
  a route to each. *)
Lemma preparePublic_endpoints_and_routes_witness :
  let plan := preparePublic resA network0 in
  snd plan = None
  /\ Forall2 (public_entry network0)
       (filter (included resA) (res_Peers resA)) (fst (fst plan))
  /\ Forall2 (link_local_route network0)
       (filter (fun p => included resA p
                  && negb (String.eqb (peerPrefix p) (resPrefix (net_Exit network0))))
          (res_Peers resA))
       (snd (fst plan)).
Proof.
  cbv zeta. split; [reflexivity|].
  apply preparePublic_endpoints_and_routes. reflexivity.
Defined.

(** B knowing only C cannot plan its default route. *)
Lemma prepareNonExitNode_missing_exit_witness :
  prepareNonExitNode resB_noexit network0
  = ([], [], Some (errorString "peer not found")).
Proof.
  apply prepareNonExitNode_missing_exit.
  intros p [<-|[]]. vm_compute. discriminate.
Defined.

(** The endpoint of A's IPv4 address is bracketed; a nil address is not. *)
Lemma endpoint_bracketed_witness :
  endpoint peerA = "[192.0.2.1]:51820" /\ endpoint peerB = "<nil>:51820".
Proof.
  split.
  - exact (proj1 (endpoint_bracketed peerA) (or_introl eq_refl)).
  - refine (proj2 (endpoint_bracketed peerB) (conj _ _)); discriminate.
Defined.

End ScenarioFacts.

(** * Properties of the apply step *)
Module ApplyFacts.
Import modules network Claims.

Section Facts.
Context {NT : net.Text} {NL : zosip.Lib} {H : host.OS}.

(** The route loop stops at the first route the kernel refuses and returns
  that error. *)
Lemma addRoutes_first_error (wg : host.Wireguard) (pre post : list netlink.Route)
    (r : netlink.Route) (w w1 w2 : host.World) (e : error) :
  addRoutes wg pre w = (w1, Ok tt) ->
  host.netlink_RouteAdd (stamped wg r) w1 = (w2, Err e) ->
  addRoutes wg (pre ++ r :: post) w = (w2, Err e).
Proof.
  revert w. induction pre as [|r0 pre IH]; intros w Hpre Hadd.
  - injection Hpre as <-. cbn [app addRoutes]. unfold host.bind.
    fold (stamped wg r). now rewrite Hadd.
  - cbn [app addRoutes] in *. unfold host.bind in *.
    destruct (host.netlink_RouteAdd _ w) as [w' [[]|e']]; [|discriminate].
    now apply IH.
Qed.

(** The index a route carries on entry is overwritten before the route is
  added: the loop does the same on routes already stamped. *)
Lemma addRoutes_overwrites_LinkIndex (wg : host.Wireguard) (i : Z)
    (routes : list netlink.Route) (w : host.World) :
  addRoutes wg (map (fun r => netlink.mkRoute (netlink.Dst r) (netlink.Gw r) i) routes) w
  = addRoutes wg routes w.
Proof.
  revert w. induction routes as [|r routes IH]; intros w; [reflexivity|].
  cbn [map addRoutes netlink.Dst netlink.Gw]. unfold host.bind.
  destruct (host.netlink_RouteAdd _ w) as [w' [[]|e']]; [apply IH | reflexivity].
Qed.

(** Once the namespace, the key and the switch into the namespace are
  there, [configWG] is its handler followed by the two deferred calls. *)
Lemma configWG_prelude (localResource : NetResource) (network : Network)
    (wgPeers : list wireguard.Peer) (routes : list netlink.Route)
    (storageDir : string) (w w1 w2 w3 : host.World) (netns : host.NetNS)
    (key : host.Key) :
  let nib := zosip.NewNibble (res_Prefix localResource) (net_AllocationNR network) in
  host.namespace_GetByName (zosip.NetworkName nib) w = (w1, Ok netns) ->
  host.orElse (host.wireguard_LoadKey (host.filepath_Join storageDir (zosip.Hex nib)))
    (host.wireguard_GenerateKey (host.filepath_Join storageDir (zosip.Hex nib))) w1
  = (w2, Ok key) ->
  host.NetNS_Set netns w2 = (w3, Ok tt) ->
  configWG localResource network wgPeers routes storageDir w
  = (host.NetNS_Close netns
       (host.NetNS_Unset netns
          (fst (configWG_handler localResource nib key wgPeers routes w3))),
     snd (configWG_handler localResource nib key wgPeers routes w3)).
Proof.
  cbv zeta. intros Hns Hkey Hset.
  unfold configWG, host.bind at 1. rewrite Hns.
  unfold host.defer at 1, host.bind at 1. rewrite Hkey.
  unfold host.NetNS_Do, host.bind at 1. rewrite Hset.
  unfold host.defer.
  destruct (configWG_handler _ _ _ _ _ w3) as [w' res]. reflexivity.
Qed.


End Facts.
End ApplyFacts.

(** * The apply step on the concrete host *)
Module ApplyScenario.
Import modules network Claims ApplyFacts Scenario.

#[local] Existing Instance sampleText.
#[local] Existing Instance sampleNibble.
#[local] Existing Instance sampleOS.



End ApplyScenario.

(** * Properties of the zdb allocator *)
Module StorageFacts.
Import storage Properties.

Section Facts.
Context {F : FS}.

(** The inner search loop hands back the candidates it was given: a volume
  that fits makes it return at once. *)
Lemma searchVolumes_continue (size : Z) (allocation : Allocation) (usage : Usage)
    (vols : list Volume) (candidates c : list Candidate) :
  searchVolumes size allocation usage vols candidates = Continue c -> c = candidates.
Proof.
  induction vols as [|v vols IH]; cbn [searchVolumes].
  - now intros [= <-].
  - destruct (isZdbVolume v); cbn [negb]; [|exact IH].
    destruct (ListNamespaces v) as [nss|err]; [|discriminate].
    destruct (Size usage <? uint64 (Total nss + size)); [exact IH | discriminate].
Qed.

Lemma searchPools_continue (diskType : string) (size : Z) (allocation : Allocation)
    (pools : list Pool) (candidates c : list Candidate) :
  searchPools diskType size allocation pools candidates = Continue c -> c = candidates.
Proof.
  revert candidates. induction pools as [|p pools IH]; intros candidates;
    cbn [searchPools].
  - now intros [= <-].
  - destruct (String.eqb (pool_Type p) diskType); cbn [negb]; [|apply IH].
    destruct (pool_Usage p) as [usage|err]; [|discriminate].
    destruct (pool_Volumes p) as [vols|err]; [|discriminate].
    destruct (searchVolumes size allocation usage vols candidates) as [r|c'] eqn:Hvols;
      [discriminate|].
    apply searchVolumes_continue in Hvols. subst c'. apply IH.
Qed.

Lemma searchVolumes_app (size : Z) (allocation : Allocation) (usage : Usage)
    (vpre vols : list Volume) (candidates : list Candidate) :
  searchVolumes size allocation usage vpre candidates = Continue candidates ->
  searchVolumes size allocation usage (vpre ++ vols) candidates
  = searchVolumes size allocation usage vols candidates.
Proof.
  induction vpre as [|v vpre IH]; cbn [searchVolumes app]; [reflexivity|].
  destruct (isZdbVolume v); cbn [negb]; [|exact IH].
  destruct (ListNamespaces v) as [nss|err]; [|discriminate].
  destruct (Size usage <? uint64 (Total nss + size)); [exact IH | discriminate].
Qed.

Lemma searchPools_app (diskType : string) (size : Z) (allocation : Allocation)
    (pre pools : list Pool) (candidates : list Candidate) :
  searchPools diskType size allocation pre candidates = Continue candidates ->
  searchPools diskType size allocation (pre ++ pools) candidates
  = searchPools diskType size allocation pools candidates.
Proof.
  induction pre as [|p pre IH]; cbn [searchPools app]; [reflexivity|].
  destruct (String.eqb (pool_Type p) diskType); cbn [negb]; [|exact IH].
  destruct (pool_Usage p) as [usage|err]; [|discriminate].
  destruct (pool_Volumes p) as [vols|err]; [|discriminate].
  destruct (searchVolumes size allocation usage vols candidates) as [r|c'] eqn:Hvols;
    [discriminate|].
  apply searchVolumes_continue in Hvols. subst c'. exact IH.
Qed.

Lemma findVolumes_lacks (nsID : string) (allocation : Allocation)
    (vols : list Volume) :
  (forall v, In v vols -> lacks nsID v) ->
  findVolumes nsID allocation vols = Continue tt.
Proof.
  induction vols as [|v vols IH]; intros Hlacks; cbn [findVolumes]; [reflexivity|].
  assert (findVolumes nsID allocation vols = Continue tt) as Hrest
    by (apply IH; intros q Hq; apply Hlacks; now right).
  destruct (Hlacks v (or_introl eq_refl)) as [Hzdb|(e & Hget & Hne)].
  - now rewrite Hzdb.
  - destruct (isZdbVolume v); cbn [negb]; [|exact Hrest].
    now rewrite Hget, Hne.
Qed.

Lemma findPools_lacks (nsID diskType : string) (allocation : Allocation)
    (pools : list Pool) :
  (forall pool, In pool pools -> pool_lacks nsID diskType pool) ->
  findPools nsID diskType allocation pools = Continue tt.
Proof.
  induction pools as [|pool pools IH]; intros Hlacks; cbn [findPools]; [reflexivity|].
  assert (findPools nsID diskType allocation pools = Continue tt) as Hrest
    by (apply IH; intros q Hq; apply Hlacks; now right).
  destruct (Hlacks pool (or_introl eq_refl)) as [Hty|(vols & Hvols & Hall)].
  - apply String.eqb_neq in Hty. now rewrite Hty.
  - destruct (String.eqb (pool_Type pool) diskType); cbn [negb]; [|exact Hrest].
    now rewrite Hvols, (findVolumes_lacks _ _ _ Hall).
Qed.

Lemma searchVolumes_too_small (size : Z) (allocation : Allocation) (usage : Usage)
    (vols : list Volume) (candidates : list Candidate) :
  (forall v, In v vols -> too_small size usage v) ->
  searchVolumes size allocation usage vols candidates = Continue candidates.
Proof.
  induction vols as [|v vols IH]; intros Hsmall; cbn [searchVolumes]; [reflexivity|].
  assert (searchVolumes size allocation usage vols candidates = Continue candidates)
    as Hrest by (apply IH; intros q Hq; apply Hsmall; now right).
  destruct (Hsmall v (or_introl eq_refl)) as [Hzdb|(nss & Hlist & Hover)].
  - now rewrite Hzdb.
  - destruct (isZdbVolume v); cbn [negb]; [|exact Hrest].
    rewrite Hlist. apply Z.ltb_lt in Hover. now rewrite Hover.
Qed.

Lemma searchPools_too_small (diskType : string) (size : Z) (allocation : Allocation)
    (pools : list Pool) (candidates : list Candidate) :
  (forall pool, In pool pools -> pool_too_small diskType size pool) ->
  searchPools diskType size allocation pools candidates = Continue candidates.
Proof.
  induction pools as [|pool pools IH]; intros Hsmall; cbn [searchPools]; [reflexivity|].
  assert (searchPools diskType size allocation pools candidates = Continue candidates)
    as Hrest by (apply IH; intros q Hq; apply Hsmall; now right).
  destruct (Hsmall pool (or_introl eq_refl)) as [Hty|(usage & vols & Hu & Hv & Hall)].
  - apply String.eqb_neq in Hty. now rewrite Hty.
  - destruct (String.eqb (pool_Type pool) diskType); cbn [negb]; [|exact Hrest].
    now rewrite Hu, Hv, (searchVolumes_too_small _ _ _ _ _ Hall).
Qed.

(** C9: when no zdb volume in a pool of the requested type holds the
  namespace, the second search returns at the first zdb volume with
  enough room: given pools before it that are of another type or hold
  only volumes that are not zdb or too small, and volumes before it in
  its pool that are not zdb or too small, [Allocate2] returns the zero
  [Allocation] with a nil error, whatever volumes and pools come after
  and whatever room they have.  The search is left with candidates only
  when it found none, so the sort by free space is never run on a
  candidate: when every pool is too small the result is that of the
  creation path on an empty candidate list. *)
Theorem Allocate2_first_fit_short_circuit (s : storageModule)
    (nsID diskType : string) (size : Z) (mode : string) :
  (forall pool, In pool (volumes s) -> pool_lacks nsID diskType pool) ->
  (forall pre pool post usage vpre v vpost namespaces,
     volumes s = (pre ++ pool :: post)%list ->
     (forall p, In p pre -> pool_too_small diskType size p) ->
     pool_Type pool = diskType ->
     pool_Usage pool = Ok usage ->
     pool_Volumes pool = Ok (vpre ++ v :: vpost)%list ->
     (forall q, In q vpre -> too_small size usage q) ->
     isZdbVolume v = true ->
     ListNamespaces v = Ok namespaces ->
     uint64 (Total namespaces + size) <= Size usage ->
     Allocate2 s nsID diskType size mode = (zeroAllocation, None))
  /\ (forall candidates,
        searchPools diskType size zeroAllocation (volumes s) [] = Continue candidates ->
        candidates = []
        /\ Allocate2 s nsID diskType size mode
           = allocateOn s nsID diskType size mode zeroAllocation [])
  /\ ((forall pool, In pool (volumes s) -> pool_too_small diskType size pool) ->
      Allocate2 s nsID diskType size mode
      = allocateOn s nsID diskType size mode zeroAllocation []).
Proof.
  intros Hlacks.
  pose proof (findPools_lacks nsID diskType zeroAllocation _ Hlacks) as Hfind.
  split; [|split].
  - intros pre pool post usage vpre v vpost nss Hvols Hpre Hty Husage Hpv Hvpre
      Hzdb Hlist Hfits.
    unfold Allocate2. rewrite Hfind, Hvols.
    rewrite (searchPools_app _ _ _ _ _ _ (searchPools_too_small _ _ _ _ _ Hpre)).
    cbn [searchPools]. rewrite Hty, String.eqb_refl, Husage, Hpv. cbn [negb].
    rewrite (searchVolumes_app _ _ _ _ _ _ (searchVolumes_too_small _ _ _ _ _ Hvpre)).
    cbn [searchVolumes]. rewrite Hzdb, Hlist. cbn [negb].
    destruct (Z.ltb_spec (Size usage) (uint64 (Total nss + size))); [lia|reflexivity].
  - intros candidates Hsearch.
    pose proof (searchPools_continue _ _ _ _ _ _ Hsearch) as ->.
    split; [reflexivity|]. unfold Allocate2. now rewrite Hfind, Hsearch.
  - intros Hsmall. unfold Allocate2.
    now rewrite Hfind, (searchPools_too_small _ _ _ _ _ Hsmall).
Qed.

End Facts.
End StorageFacts.

(** * The allocator on the concrete storage *)
Module StorageScenario.
Import storage Properties StorageFacts Scenario.

#[local] Existing Instance sampleFS2.

(** After an HDD pool, in the SSD pool of 100 units, a request of 10 passes
  over the volume that is not zdb and over zdbfull (95 held), and returns
  at zdb1 (60 held, 30 free after the request) although zdb2 would leave
  90 free; the value returned names no volume.  Where every volume is
  too small the request creates the sub-volume zdb0000. *)
Lemma Allocate2_first_fit_short_circuit_witness :
  searchVolumes 10 zeroAllocation (mkUsage 100) [zdb2] [] = Return (zeroAllocation, None)
  /\ Allocate2 storage1 "ns9" "SSD" 10 "seq" = (zeroAllocation, None)
  /\ Allocate2 storage3 "ns9" "SSD" 10 "seq"
     = (mkAllocation "zdb0000" "/mnt/zdb0000", None).
Proof.
  split; [reflexivity|]. split.
  - refine (proj1 (Allocate2_first_fit_short_circuit storage1 "ns9" "SSD" 10 "seq" _)
              [poolHDD] poolSSD [] (mkUsage 100) [dataVolume; zdbfull] zdb1 [zdb2]
              [mkNamespace "ns1" 60 "seq"] _ _ _ _ _ _ _ _ _);
      try reflexivity.
    + intros pool [<-|[<-|[]]]; [left; discriminate|].
      right. exists [dataVolume; zdbfull; zdb1; zdb2]. split; [reflexivity|].
      intros v [<-|[<-|[<-|[<-|[]]]]]; [left; reflexivity | | |];
        right; exists ErrNotExist; split; reflexivity.
    + intros p [<-|[]]. left. discriminate.
    + intros q [<-|[<-|[]]]; [left; reflexivity|].
      right. exists [mkNamespace "big" 95 "seq"]. split; [reflexivity|].
      vm_compute. reflexivity.
    + vm_compute. discriminate.
  - refine (eq_trans
              (proj2 (proj2 (Allocate2_first_fit_short_circuit storage3 "ns9" "SSD" 10
                               "seq" _)) _) _);
      [| |reflexivity].
    + intros pool [<-|[<-|[<-|[]]]]; [left; discriminate | |].
      * right. exists [zdbfull]. split; [reflexivity|].
        intros v [<-|[]]. right. exists ErrNotExist. split; reflexivity.
      * right. exists [dataVolume]. split; [reflexivity|].
        intros v [<-|[]]. left. reflexivity.
    + intros pool [<-|[<-|[<-|[]]]]; [left; discriminate | |].
      * right. exists (mkUsage 20), [zdbfull]. repeat split.
        intros v [<-|[]]. right. exists [mkNamespace "big" 95 "seq"].
        split; [reflexivity|]. vm_compute. reflexivity.
      * right. exists (mkUsage 100), [dataVolume]. repeat split.
        intros v [<-|[]]. left. reflexivity.
Defined.

End StorageScenario.

(** * Further properties of the planner *)
Module PlannerExtras.
Import modules network Claims Properties PlannerFacts.

Section Facts.
Context {NT : net.Text} {NL : zosip.Lib}.

(** [find] returns the first element that passes the test. *)
Lemma find_first {A : Type} (f : A -> bool) (l : list A) (x : A) :
  find f l = Some x <->
  exists pre post,
    l = (pre ++ x :: post)%list /\ f x = true /\ forall q, In q pre -> f q = false.
Proof.
  induction l as [|a l IH]; cbn [find].
  - split; [discriminate|]. intros ([|? ?] & post & Heq & _); discriminate.
  - destruct (f a) eqn:Hfa.
    + split.
      * intros [= <-]. exists [], l. split; [reflexivity|]. split; [exact Hfa|].
        intros ? [].
      * intros ([|q pre] & post & Hl & Hx & Hpre).
        -- now injection Hl as ->.
        -- injection Hl as <- _. rewrite (Hpre a (or_introl eq_refl)) in Hfa.
           discriminate.
    + rewrite IH. split.
      * intros (pre & post & -> & Hx & Hpre). exists (a :: pre), post.
        split; [reflexivity|]. split; [exact Hx|].
        intros q [<-|Hq]; [exact Hfa | now apply Hpre].
      * intros ([|q pre] & post & Hl & Hx & Hpre).
        -- injection Hl as <- _. rewrite Hx in Hfa. discriminate.
        -- injection Hl as <- ->. exists pre, post. split; [reflexivity|].
           split; [exact Hx|]. intros q' Hq'. apply Hpre. now right.
Qed.

Lemma find_nothing {A : Type} (f : A -> bool) (l : list A) :
  find f l = None <-> forall q, In q l -> f q = false.
Proof.
  induction l as [|a l IH]; cbn [find].
  - split; [intros _ ? [] | reflexivity].
  - destruct (f a) eqn:Hfa.
    + split; [discriminate|]. intros Hall.
      rewrite (Hall a (or_introl eq_refl)) in Hfa. discriminate.
    + rewrite IH. split; intros Hall.
      * intros q [<-|Hq]; [exact Hfa | now apply Hall].
      * intros q Hq. apply Hall. now right.
Qed.

Lemma getPeer_find (prefix : string) (peers : list Peer) :
  getPeer prefix peers
  = match find (fun p => String.eqb (peerPrefix p) prefix) peers with
    | Some p => Ok p
    | None => Err (errorString "peer not found")
    end.
Proof.
  induction peers as [|p peers IH]; cbn [getPeer find]; [reflexivity|].
  destruct (String.eqb (peerPrefix p) prefix); [reflexivity | exact IH].
Qed.

Lemma localResource_find (n : networker) (resources : list NetResource) :
  localResource n resources
  = find (fun r => String.eqb (ID (res_NodeID r)) (ID (nodeID n))) resources.
Proof.
  induction resources as [|r rs IH]; cbn [localResource find]; [reflexivity|].
  destruct (String.eqb (ID (res_NodeID r)) (ID (nodeID n))); [reflexivity | exact IH].
Qed.

(** [getPeer] returns the first peer of the list whose prefix string is the
  one asked for, and fails, with "peer not found", exactly when the list
  has no such peer. *)
Theorem getPeer_first_match (prefix : string) (peers : list Peer) :
  (forall p,
     getPeer prefix peers = Ok p <->
     exists pre post,
       peers = (pre ++ p :: post)%list /\ peerPrefix p = prefix
       /\ forall q, In q pre -> peerPrefix q <> prefix)
  /\ (forall e,
        getPeer prefix peers = Err e <->
        e = errorString "peer not found"
        /\ forall q, In q peers -> peerPrefix q <> prefix).
Proof.
  rewrite getPeer_find. split.
  - intros p.
    destruct (find _ peers) as [p'|] eqn:Hfind.
    + split.
      * intros [= <-]. apply find_first in Hfind.
        destruct Hfind as (pre & post & Hl & Hp & Hpre). exists pre, post.
        split; [exact Hl|]. split; [now apply String.eqb_eq|].
        intros q Hq. apply String.eqb_neq. now apply Hpre.
      * intros (pre & post & Hl & Hp & Hpre). f_equal.
        assert (find (fun p => String.eqb (peerPrefix p) prefix) peers = Some p) as Hp'.
        { apply find_first. exists pre, post. split; [exact Hl|].
          split; [now apply String.eqb_eq|].
          intros q Hq. apply String.eqb_neq. now apply Hpre. }
        congruence.
    + split; [discriminate|]. intros (pre & post & -> & Hp & _).
      rewrite find_nothing in Hfind. apply String.eqb_eq in Hp.
      rewrite Hfind in Hp; [discriminate|]. apply in_or_app. right. now left.
  - intros e. destruct (find _ peers) as [p'|] eqn:Hfind.
    + split; [discriminate|]. intros [_ Hall]. apply find_some in Hfind.
      destruct Hfind as [Hin Hp]. apply String.eqb_eq in Hp. now apply Hall in Hin.
    + rewrite find_nothing in Hfind. split.
      * intros [= <-]. split; [reflexivity|]. intros q Hq.
        apply String.eqb_neq. now apply Hfind.
      * now intros [-> _].
Qed.

(** [localResource] returns the first resource whose node identifier
  string is the networker's, whatever the reachability flags are, and nil
  exactly when no resource has that identifier. *)
Theorem localResource_first_match (n : networker) (resources : list NetResource) :
  (forall r,
     localResource n resources = Some r <->
     exists pre post,
       resources = (pre ++ r :: post)%list /\ ID (res_NodeID r) = ID (nodeID n)
       /\ forall q, In q pre -> ID (res_NodeID q) <> ID (nodeID n))
  /\ (localResource n resources = None <->
      forall q, In q resources -> ID (res_NodeID q) <> ID (nodeID n)).
Proof.
  rewrite localResource_find. split.
  - intros r. rewrite find_first. split.
    + intros (pre & post & Hl & Hp & Hpre). exists pre, post.
      split; [exact Hl|]. split; [now apply String.eqb_eq|].
      intros q Hq. apply String.eqb_neq. now apply Hpre.
    + intros (pre & post & Hl & Hp & Hpre). exists pre, post.
      split; [exact Hl|]. split; [now apply String.eqb_eq|].
      intros q Hq. apply String.eqb_neq. now apply Hpre.
  - rewrite find_nothing. split; intros Hall q Hq.
    + apply String.eqb_neq. now apply Hall.
    + apply String.eqb_neq. now apply Hall.
Qed.

(** [publicPrefixes] and [hiddenPrefixes] return, in the order of the
  resources and with repetitions, the prefix strings of exactly the
  resources that are public, resp. hidden; [isIn] on them decides whether
  some such resource has the prefix. *)
Theorem prefix_lists_spec (resources : list NetResource) :
  publicPrefixes resources
  = map resPrefix (filter (fun r => isPublic (res_NodeID r)) resources)
  /\ hiddenPrefixes resources
     = map resPrefix (filter (fun r => isHidden (res_NodeID r)) resources)
  /\ (forall s,
        isIn s (publicPrefixes resources) = true <->
        exists r, In r resources /\ isPublic (res_NodeID r) = true /\ resPrefix r = s)
  /\ (forall s,
        isIn s (hiddenPrefixes resources) = true <->
        exists r, In r resources /\ isHidden (res_NodeID r) = true /\ resPrefix r = s).
Proof.
  split; [|split; [|split]].
  - unfold publicPrefixes. now rewrite publicPrefixes_from_app.
  - unfold hiddenPrefixes. now rewrite hiddenPrefixes_from_app.
  - intros s. rewrite isIn_In. apply In_publicPrefixes.
  - intros s. rewrite isIn_In. apply In_hiddenPrefixes.
Qed.

(** When the peer loop of [configureExitNetNR] succeeds, every entry it
  built is scoped to the prefix of a resource classified as Hidden and
  carries no endpoint, every route leads to such a prefix, and there is
  one route per entry. *)
Theorem exit_hub_serves_hidden_only (localResource : NetResource)
    (network : Network) (peers : list wireguard.Peer)
    (routes : list netlink.Route) :
  configureExitNetNR_loop localResource network
    (hiddenPrefixes (net_Resources network)) (res_Peers localResource) [] []
  = Ok (peers, routes) ->
  (forall wp, In wp peers ->
     wireguard.Endpoint wp = "" /\ hidden_prefix network (entryPrefix wp))
  /\ (forall r, In r routes -> hidden_prefix network (routePrefix r))
  /\ List.length routes = List.length peers
  /\ map entryPrefix peers
     = map peerPrefix
         (filter (fun p => included localResource p
                    && isIn (peerPrefix p) (hiddenPrefixes (net_Resources network)))
            (res_Peers localResource)).
Proof.
  intros Hloop.
  destruct (configureExitNetNR_loop_cases localResource network
              (hiddenPrefixes (net_Resources network)) (res_Peers localResource) [] [])
    as [[err He]|(np & He & HF)]; rewrite He in Hloop; [discriminate|].
  cbn [app] in Hloop. injection Hloop as <- <-.
  split; [|split; [|split]].
  - intros wp Hwp. destruct (Forall2_In_r _ _ _ _ HF Hwp) as (p & Hp & Hentry).
    apply entry_with_prefix in Hentry. destruct Hentry as (_ & Hep & Hpre).
    split; [exact Hep|]. rewrite Hpre.
    apply filter_In in Hp. destruct Hp as [_ Hp]. apply andb_prop in Hp.
    apply In_hiddenPrefixes, isIn_In. exact (proj2 Hp).
  - intros r Hr. apply in_map_iff in Hr. destruct Hr as (p & <- & Hp).
    apply filter_In in Hp. destruct Hp as [_ Hp]. apply andb_prop in Hp.
    apply In_hiddenPrefixes, isIn_In. exact (proj2 Hp).
  - rewrite length_map. exact (Forall2_length HF).
  - symmetry. clear He. induction HF as [|p wp l l' Hentry _ IH]; [reflexivity|].
    cbn [map]. apply entry_with_prefix in Hentry. f_equal; [|exact IH].
    symmetry. exact (proj2 (proj2 Hentry)).
Qed.

(** The plans of [preparePublic], [prepareHidden] and [prepareNonExitNode]
  are all or nothing: when the error is not nil, the peers and the routes
  are nil, entries already built included. *)
Theorem plans_all_or_nothing (localResource : NetResource) (network : Network) :
  all_or_nothing (preparePublic localResource network)
  /\ all_or_nothing (prepareHidden localResource network)
  /\ all_or_nothing (prepareNonExitNode localResource network).
Proof.
  split; [|split].
  - unfold preparePublic.
    destruct (preparePublic_loop_cases localResource network
                (publicPrefixes (net_Resources network)) (res_Peers localResource) [] [])
      as [[err He]|(np & He & _)]; rewrite He; cbn; [auto | congruence].
  - unfold prepareHidden.
    destruct (prepareHidden_loop_cases localResource network
                (publicPrefixes (net_Resources network)) (res_Peers localResource) [] [])
      as [[err He]|(np & He & _)]; rewrite He; cbn; [auto | congruence].
  - unfold prepareNonExitNode.
    destruct (getPeer _ _) as [exitPeer|err]; [|cbn; auto].
    destruct (negb _); [|cbn; congruence].
    destruct (zosip.ToV4 _) as [[a b]|err]; cbn; [congruence | auto].
Qed.

Lemma filter_hasEndpoint_snoc (l : list wireguard.Peer) (wp : wireguard.Peer) :
  filter hasEndpoint (l ++ [wp])
  = (filter hasEndpoint l ++ (if hasEndpoint wp then [wp] else []))%list.
Proof. rewrite filter_app. reflexivity. Qed.

Lemma hidden_public_loops (localResource : NetResource) (network : Network)
    (pub : list string) (todo : list Peer) (ph pp : list wireguard.Peer)
    (rh rp : list netlink.Route) :
  ph = filter hasEndpoint pp ->
  let hidden := prepareHidden_loop localResource network pub todo ph rh in
  let public := preparePublic_loop localResource network pub todo pp rp in
  snd hidden = snd public
  /\ fst (fst hidden) = filter hasEndpoint (fst (fst public)).
Proof.
  cbv zeta. revert ph pp rh rp.
  induction todo as [|p todo IH]; intros ph pp rh rp Hph.
  - cbn. auto.
  - cbn [prepareHidden_loop preparePublic_loop].
    destruct (negb (ConnType_eqb (peer_Type p) ConnTypeWireguard)); [now apply IH|].
    destruct (String.eqb (peerPrefix p) (resPrefix localResource)); [now apply IH|].
    destruct (zosip.ToV4 _) as [[a b]|err]; [|cbn; auto].
    cbn [wireguard.PublicKey wireguard.AllowedIPs].
    destruct (isIn (peerPrefix p) pub) eqn:Hpub.
    + assert (hasEndpoint
                (wireguard.mkPeer (conn_Key (peer_Connection p)) (endpoint p)
                   (peerAllowedIPs
                      (zosip.NewNibble (peer_Prefix p) (net_AllocationNR network)) a b p))
              = true) as Hep.
      { unfold hasEndpoint. cbn [wireguard.Endpoint].
        destruct (String.eqb_spec (endpoint p) ""); [|reflexivity].
        now destruct (endpoint_nonempty p). }
      destruct (String.eqb (peerPrefix p) (resPrefix (net_Exit network)));
        apply IH; rewrite filter_hasEndpoint_snoc, Hep, Hph; reflexivity.
    + destruct (String.eqb (peerPrefix p) (resPrefix (net_Exit network)));
        apply IH; rewrite filter_hasEndpoint_snoc, Hph; cbn; now rewrite app_nil_r.
Qed.

(** [prepareHidden] and [preparePublic] fail on the same inputs, with the
  same error, and the entries of [prepareHidden] are exactly the entries
  of [preparePublic] that carry an endpoint, in the same order. *)
Theorem prepareHidden_keeps_endpoint_entries (localResource : NetResource)
    (network : Network) :
  snd (prepareHidden localResource network) = snd (preparePublic localResource network)
  /\ fst (fst (prepareHidden localResource network))
     = filter hasEndpoint (fst (fst (preparePublic localResource network))).
Proof.
  unfold prepareHidden, preparePublic. now apply hidden_public_loops.
Qed.

End Facts.
End PlannerExtras.

(** * Further properties of the apply step *)
Module ApplyExtras.
Import modules network Claims Properties ApplyFacts.

Section Facts.
Context {NT : net.Text} {NL : zosip.Lib} {H : host.OS}.

Lemma configWG_handler_withIndex (localResource : NetResource)
    (nib : zosip.Nibble) (key : host.Key) (wgPeers : list wireguard.Peer)
    (routes : list netlink.Route) (i : Z) (w : host.World) :
  configWG_handler localResource nib key wgPeers (map (withIndex i) routes) w
  = configWG_handler localResource nib key wgPeers routes w.
Proof.
  unfold configWG_handler, host.bind, liftResult.
  destruct (host.wireguard_GetByName _ w) as [w1 [wg|e]]; [|reflexivity].
  destruct (host.SetAddr wg _ w1) as [w2 [[]|e]]; [|reflexivity].
  destruct (zosip.ToV4 nib) as [ab|e]; [|reflexivity].
  destruct (host.SetAddr wg _ w2) as [w3 [[]|e]]; [|reflexivity].
  destruct (host.Configure wg _ _ w3) as [w4 [[]|e]]; [|reflexivity].
  apply addRoutes_overwrites_LinkIndex.
Qed.

(** [configWG] does not read the interface index the planned routes carry:
  it stamps its own on each route before adding it, so a plan whose routes
  already carry an index, from an earlier run say, is applied the same
  way. *)
Theorem configWG_ignores_LinkIndex (localResource : NetResource)
    (network : Network) (wgPeers : list wireguard.Peer)
    (routes : list netlink.Route) (storageDir : string) (i : Z) (w : host.World) :
  configWG localResource network wgPeers (map (withIndex i) routes) storageDir w
  = configWG localResource network wgPeers routes storageDir w.
Proof.
  unfold configWG, host.bind at 1 3.
  destruct (host.namespace_GetByName _ w) as [w1 [netns|e]]; [|reflexivity].
  unfold host.defer, host.bind at 1 2.
  destruct (host.orElse _ _ w1) as [w2 [key|e]]; [|reflexivity].
  unfold host.NetNS_Do, host.bind.
  destruct (host.NetNS_Set netns w2) as [w3 [[]|e]]; [|reflexivity].
  unfold host.defer. now rewrite configWG_handler_withIndex.
Qed.

End Facts.
End ApplyExtras.

(** * Further properties of the zdb allocator *)
Module StorageExtras.
Import storage Properties StorageFacts.

Section Facts.
Context {F : FS} {Q : Quota}.

Lemma Total_from_wraps (t : Z) (s : zdbNamespaces) :
  Total_from (uint64 t) s = uint64 (t + sizeSum s).
Proof.
  revert t. induction s as [|n s IH]; intros t; cbn [Total_from sizeSum map fold_right].
  - now rewrite Z.add_0_r.
  - rewrite IH. unfold uint64. fold (sizeSum s).
    rewrite <- Z.add_assoc, Zplus_mod_idemp_l. reflexivity.
Qed.

(** [Total] is the sum of the namespace sizes modulo 2^64: it lies in
  [0, 2^64) and wraps around instead of growing past it; the total of two
  lists put together is the wrapped sum of their totals. *)
Theorem Total_wraps (s t : zdbNamespaces) :
  Total s = uint64 (sizeSum s)
  /\ 0 <= Total s < 2 ^ 64
  /\ Total (s ++ t)%list = uint64 (Total s + Total t).
Proof.
  assert (forall l, Total l = uint64 (sizeSum l)) as Htotal.
  { intros l. unfold Total. change 0 with (uint64 0) at 1.
    now rewrite Total_from_wraps. }
  split; [apply Htotal|]. split.
  - rewrite Htotal. unfold uint64. apply Z.mod_pos_bound. lia.
  - rewrite !Htotal. unfold sizeSum, uint64.
    rewrite map_app, fold_right_app.
    assert (forall (l : list Z) (z : Z), fold_right Z.add z l = fold_right Z.add 0 l + z)
      as Hfold.
    { induction l as [|x l IHl]; intros z; cbn [fold_right]; [lia|].
      rewrite IHl. lia. }
    rewrite Hfold. now rewrite <- Zplus_mod.
Qed.

Lemma GetNamespace_ID (v : Volume) (ns : string) (info : zdbNamespace) :
  GetNamespace v ns = (info, None) -> ns_ID info = ns.
Proof.
  unfold GetNamespace. destruct (os_Open _) as [file|err]; [|discriminate].
  destruct (json_Decode file zeroNamespace) as [decoded err].
  now intros [= <- _].
Qed.

Lemma ListNamespaces_loop_ids (v : Volume) (dirs : list FileInfo)
    (acc nss : zdbNamespaces) :
  ListNamespaces_loop v dirs acc = Ok nss ->
  map ns_ID nss
  = (map ns_ID acc
     ++ map fi_Name (filter (fun d => fi_IsDir d && readable v (fi_Name d)) dirs))%list.
Proof.
  revert acc. induction dirs as [|d dirs IH]; intros acc; cbn [ListNamespaces_loop filter].
  - intros [= <-]. now rewrite app_nil_r.
  - unfold readable at 1. destruct (fi_IsDir d); cbn [negb andb]; [|apply IH].
    destruct (GetNamespace v (fi_Name d)) as [info [err|]] eqn:Hget; cbn [snd].
    + destruct (os_IsNotExist err); [apply IH | discriminate].
    + intros Hloop. rewrite (IH _ Hloop), map_app. cbn [map].
      rewrite (GetNamespace_ID _ _ _ Hget), <- app_assoc. reflexivity.
Qed.

Lemma ListNamespaces_loop_error (v : Volume) (dirs : list FileInfo)
    (acc : zdbNamespaces) (e : error) :
  ListNamespaces_loop v dirs acc = Err e ->
  exists d, In d dirs /\ fi_IsDir d = true
            /\ snd (GetNamespace v (fi_Name d)) = Some e /\ os_IsNotExist e = false.
Proof.
  revert acc. induction dirs as [|d dirs IH]; intros acc; cbn [ListNamespaces_loop];
    [discriminate|].
  assert (forall acc', ListNamespaces_loop v dirs acc' = Err e ->
            exists d0, In d0 (d :: dirs) /\ fi_IsDir d0 = true
                       /\ snd (GetNamespace v (fi_Name d0)) = Some e
                       /\ os_IsNotExist e = false) as Hrest.
  { intros acc' Hloop. destruct (IH _ Hloop) as (d0 & Hin & Hrest).
    exists d0. split; [now right | exact Hrest]. }
  destruct (fi_IsDir d) eqn:Hdir; cbn [negb]; [|apply Hrest].
  destruct (GetNamespace v (fi_Name d)) as [info [err|]] eqn:Hget; [|apply Hrest].
  destruct (os_IsNotExist err) eqn:Hne; [apply Hrest|].
  intros [= <-]. exists d. rewrite Hget. cbn. auto.
Qed.

(** [ListNamespaces] returns one namespace per sub-directory of the volume
  whose .info file can be read, in directory order, each with the
  directory's name for ID; plain files and directories without an .info
  file are skipped, and it fails only with the error of [ReadDir] or with
  that of reading some directory's .info file, when it is not a
  not-exist error. *)
Theorem ListNamespaces_spec (v : Volume) :
  (forall nss,
     ListNamespaces v = Ok nss ->
     exists dirs,
       ioutil_ReadDir (vol_Path v) = Ok dirs
       /\ map ns_ID nss
          = map fi_Name (filter (fun d => fi_IsDir d && readable v (fi_Name d)) dirs))
  /\ (forall e,
        ListNamespaces v = Err e ->
        ioutil_ReadDir (vol_Path v) = Err e
        \/ exists dirs d,
             ioutil_ReadDir (vol_Path v) = Ok dirs /\ In d dirs /\ fi_IsDir d = true
             /\ snd (GetNamespace v (fi_Name d)) = Some e /\ os_IsNotExist e = false).
Proof.
  unfold ListNamespaces. destruct (ioutil_ReadDir (vol_Path v)) as [dirs|err].
  - split.
    + intros nss Hloop. exists dirs. split; [reflexivity|].
      now rewrite (ListNamespaces_loop_ids _ _ _ _ Hloop).
    + intros e Hloop. right. apply ListNamespaces_loop_error in Hloop.
      destruct Hloop as (d & Hd). exists dirs, d. auto.
  - split; [discriminate|]. intros e [= <-]. now left.
Qed.

Lemma findVolumes_found (nsID : string) (allocation a : Allocation)
    (vols : list Volume) :
  findVolumes nsID allocation vols = Return (a, None) ->
  exists v, In v vols /\ isZdbVolume v = true /\ readable v nsID = true
            /\ a = mkAllocation (vol_Name v) (vol_Path v).
Proof.
  induction vols as [|v vols IH]; cbn [findVolumes]; [discriminate|].
  assert (findVolumes nsID allocation vols = Return (a, None) ->
          exists v0, In v0 (v :: vols) /\ isZdbVolume v0 = true
                     /\ readable v0 nsID = true
                     /\ a = mkAllocation (vol_Name v0) (vol_Path v0)) as Hrest.
  { intros Hfound. destruct (IH Hfound) as (v0 & Hin & Hv0).
    exists v0. split; [now right | exact Hv0]. }
  destruct (isZdbVolume v) eqn:Hzdb; cbn [negb]; [|exact Hrest].
  destruct (snd (GetNamespace v nsID)) as [err|] eqn:Hget.
  - destruct (os_IsNotExist err); [exact Hrest | discriminate].
  - intros [= <-]. exists v. unfold readable. rewrite Hget. cbn. auto.
Qed.

(** When the first search of [Allocate2] finds the namespace, the
  allocation returned names a zdb volume of a pool of the requested disk
  type on which the namespace can be read: an existing namespace is
  reused where it is, and nothing is created. *)
Theorem Allocate2_reuses_holder (s : storageModule) (nsID diskType : string)
    (size : Z) (mode : string) (a : Allocation) :
  findPools nsID diskType zeroAllocation (volumes s) = Return (a, None) ->
  Allocate2 s nsID diskType size mode = (a, None)
  /\ exists pool vols v,
       In pool (volumes s) /\ pool_Type pool = diskType
       /\ pool_Volumes pool = Ok vols /\ In v vols
       /\ isZdbVolume v = true /\ readable v nsID = true
       /\ a = mkAllocation (vol_Name v) (vol_Path v).
Proof.
  intros Hfind. split; [unfold Allocate2; now rewrite Hfind|].
  revert Hfind. generalize (volumes s). intros pools.
  induction pools as [|pool pools IH]; cbn [findPools]; [discriminate|].
  assert (findPools nsID diskType zeroAllocation pools = Return (a, None) ->
          exists pool0 vols v,
            In pool0 (pool :: pools) /\ pool_Type pool0 = diskType
            /\ pool_Volumes pool0 = Ok vols /\ In v vols
            /\ isZdbVolume v = true /\ readable v nsID = true
            /\ a = mkAllocation (vol_Name v) (vol_Path v)) as Hrest.
  { intros Hfound. destruct (IH Hfound) as (pool0 & vols & v & Hin & Hmore).
    exists pool0, vols, v. split; [now right | exact Hmore]. }
  destruct (String.eqb_spec (pool_Type pool) diskType) as [Hty|_]; cbn [negb];
    [|exact Hrest].
  destruct (pool_Volumes pool) as [vols|err] eqn:Hvols; [|discriminate].
  destruct (findVolumes nsID zeroAllocation vols) as [r|[]] eqn:Hfv; [|exact Hrest].
  intros [= ->]. apply findVolumes_found in Hfv.
  destruct Hfv as (v & Hin & Hv). exists pool, vols, v.
  split; [now left|]. auto.
Qed.

Lemma findVolumes_error (nsID : string) (allocation a : Allocation)
    (vols : list Volume) (e : error) :
  findVolumes nsID allocation vols = Return (a, Some e) -> a = allocation.
Proof.
  induction vols as [|v vols IH]; cbn [findVolumes]; [discriminate|].
  destruct (isZdbVolume v); cbn [negb]; [|exact IH].
  destruct (snd (GetNamespace v nsID)) as [err|]; [|discriminate].
  destruct (os_IsNotExist err); [exact IH | now intros [= <- _]].
Qed.

Lemma findPools_error (nsID diskType : string) (allocation a : Allocation)
    (pools : list Pool) (e : error) :
  findPools nsID diskType allocation pools = Return (a, Some e) -> a = allocation.
Proof.
  induction pools as [|pool pools IH]; cbn [findPools]; [discriminate|].
  destruct (String.eqb (pool_Type pool) diskType); cbn [negb]; [|exact IH].
  destruct (pool_Volumes pool) as [vols|err]; [|now intros [= <- _]].
  destruct (findVolumes nsID allocation vols) as [r|[]] eqn:Hfv; [|exact IH].
  intros [= ->]. now apply findVolumes_error in Hfv.
Qed.

Lemma searchVolumes_return (size : Z) (allocation : Allocation) (usage : Usage)
    (vols : list Volume) (candidates : list Candidate) (r : Allocation * option error) :
  searchVolumes size allocation usage vols candidates = Return r -> fst r = allocation.
Proof.
  induction vols as [|v vols IH]; cbn [searchVolumes]; [discriminate|].
  destruct (isZdbVolume v); cbn [negb]; [|exact IH].
  destruct (ListNamespaces v) as [nss|err]; [|now intros [= <-]].
  destruct (Size usage <? uint64 (Total nss + size)); [exact IH | now intros [= <-]].
Qed.

Lemma searchPools_return (diskType : string) (size : Z) (allocation : Allocation)
    (pools : list Pool) (candidates : list Candidate) (r : Allocation * option error) :
  searchPools diskType size allocation pools candidates = Return r -> fst r = allocation.
Proof.
  revert candidates. induction pools as [|pool pools IH]; intros candidates;
    cbn [searchPools]; [discriminate|].
  destruct (String.eqb (pool_Type pool) diskType); cbn [negb]; [|apply IH].
  destruct (pool_Usage pool) as [usage|err]; [|now intros [= <-]].
  destruct (pool_Volumes pool) as [vols|err]; [|now intros [= <-]].
  destruct (searchVolumes size allocation usage vols candidates) as [r'|c] eqn:Hsv;
    [|apply IH].
  intros [= ->]. now apply searchVolumes_return in Hsv.
Qed.

(** Whenever [Allocate2] returns an error, the allocation it returns with
  it is the zero value: no volume is named on failure. *)
Theorem Allocate2_error_names_no_volume (s : storageModule)
    (nsID diskType : string) (size : Z) (mode : string) (a : Allocation)
    (e : error) :
  Allocate2 s nsID diskType size mode = (a, Some e) -> a = zeroAllocation.
Proof.
  unfold Allocate2.
  destruct (findPools nsID diskType zeroAllocation (volumes s)) as [r|[]] eqn:Hfind.
  - intros ->. now apply findPools_error in Hfind.
  - destruct (searchPools diskType size zeroAllocation (volumes s) []) as [r|c] eqn:Hsearch.
    + intros ->. now apply searchPools_return in Hsearch.
    + unfold allocateOn.
      destruct (0 <? Z.of_nat (List.length c)).
      * destruct (sort_Slice _ c) as [|c0 ?]; [now intros [= <- _]|].
        destruct (CreateNamespace _ _ _); [now intros [= <- _] | discriminate].
      * destruct genZDBPoolName as [name|err]; [|now intros [= <- _]].
        destruct (createSubvol s size name diskType) as [vol|err]; [|now intros [= <- _]].
        destruct (CreateNamespace _ _ _); [now intros [= <- _] | discriminate].
Qed.

(** The free-space test of [Allocate2] is made on the wrapped sum: a zdb
  volume is taken as fitting when quota plus size overflows 64 bits and
  what is left after the wrap-around is within the pool size. *)
Theorem searchVolumes_accepts_overflow (size : Z) (allocation : Allocation)
    (usage : Usage) (v : Volume) (rest : list Volume)
    (candidates : list Candidate) (namespaces : zdbNamespaces) :
  isZdbVolume v = true ->
  ListNamespaces v = Ok namespaces ->
  0 <= size < 2 ^ 64 ->
  2 ^ 64 <= Total namespaces + size ->
  Total namespaces + size - 2 ^ 64 <= Size usage ->
  searchVolumes size allocation usage (v :: rest) candidates
  = Return (allocation, None).
Proof.
  intros Hzdb Hlist Hsize Hover Hfits. cbn [searchVolumes].
  rewrite Hzdb, Hlist. cbn [negb].
  destruct (Total_wraps namespaces []) as (_ & Hrange & _).
  assert (uint64 (Total namespaces + size) = Total namespaces + size - 2 ^ 64) as ->.
  { unfold uint64. symmetry. apply (Z.mod_unique _ _ 1); lia. }
  destruct (Z.ltb_spec (Size usage) (Total namespaces + size - 2 ^ 64));
    [lia | reflexivity].
Qed.

(** Every name [genZDBPoolName] generates is recognised by [isZdbVolume]:
  a sub-volume created under a generated name is found again by the
  searches of [Allocate2] and [Allocate]. *)
Theorem genZDBPoolName_is_zdb (name : string) :
  genZDBPoolName = Ok name ->
  forall path, isZdbVolume (mkVolume name path) = true.
Proof.
  unfold genZDBPoolName. destruct uuid_NewRandom as [id|err]; [|discriminate].
  intros [= <-] path. destruct id; reflexivity.
Qed.

Lemma Allocate_volumes_skip (size : Z) (vpre vols : list Volume) :
  (forall q, In q vpre -> isZdbVolume q = false) ->
  Allocate_volumes size (vpre ++ vols) = Allocate_volumes size vols.
Proof.
  induction vpre as [|q vpre IH]; intros Hpre; cbn [app Allocate_volumes];
    [reflexivity|].
  fold (isZdbVolume q). rewrite (Hpre q (or_introl eq_refl)). cbn [negb].
  apply IH. intros q' Hq'. apply Hpre. now right.
Qed.

Lemma Allocate_pools_skip (diskType : string) (size : Z) (pre pools : list Pool) :
  Allocate_pools diskType size pre = None ->
  Allocate_pools diskType size (pre ++ pools) = Allocate_pools diskType size pools.
Proof.
  induction pre as [|p pre IH]; cbn [app Allocate_pools]; [reflexivity|].
  destruct (String.eqb (pool_Type p) diskType); cbn [negb]; [|exact IH].
  destruct (pool_Usage p) as [usage|err]; [|discriminate].
  destruct (pool_Reserved p) as [reserved|err]; [|discriminate].
  destruct (Size usage <? uint64 (reserved + size)); [exact IH|].
  destruct (pool_Volumes p) as [vols|err]; [|discriminate].
  destruct (Allocate_volumes size vols); [discriminate | exact IH].
Qed.

Lemma Allocate_pools_passed_over (diskType : string) (size : Z) (pools : list Pool) :
  (forall p, In p pools -> pool_passed_over diskType size p) ->
  Allocate_pools diskType size pools = None.
Proof.
  induction pools as [|pool pools IH]; intros Hover; cbn [Allocate_pools]; [reflexivity|].
  assert (Allocate_pools diskType size pools = None) as Hrest
    by (apply IH; intros q Hq; apply Hover; now right).
  destruct (Hover pool (or_introl eq_refl))
    as [Hty|(usage & reserved & Hu & Hr & [Hroom|(vols & Hv & Hnone)])].
  - apply String.eqb_neq in Hty. now rewrite Hty.
  - destruct (String.eqb (pool_Type pool) diskType); cbn [negb]; [|exact Hrest].
    rewrite Hu, Hr. apply Z.ltb_lt in Hroom. now rewrite Hroom.
  - destruct (String.eqb (pool_Type pool) diskType); cbn [negb]; [|exact Hrest].
    rewrite Hu, Hr. destruct (Size usage <? uint64 (reserved + size)); [exact Hrest|].
    rewrite Hv. rewrite <- (app_nil_r vols), (Allocate_volumes_skip _ _ _ Hnone).
    exact Hrest.
Qed.

(** [Allocate] takes the first zdb volume of the first pool of the
  requested type whose reserved size leaves room for the request: given
  pools before it that are of another type, or have no room left beside
  their reserved size, or list no zdb volume, and volumes before it in
  its pool that are not zdb, it raises that volume's limit by the
  request, modulo 2^64, with one call to [Limit], and returns its name
  and path, whatever volumes and pools come after and whatever room the
  volume itself has. *)
Theorem Allocate_grows_first_zdb_volume (s : storageModule) (diskType : string)
    (size : Z) (mode : string) (pre post : list Pool) (pool : Pool)
    (usage vusage : Usage) (reserved : Z) (vpre vpost : list Volume) (v : Volume) :
  volumes s = (pre ++ pool :: post)%list ->
  (forall p, In p pre -> pool_passed_over diskType size p) ->
  pool_Type pool = diskType ->
  pool_Usage pool = Ok usage ->
  pool_Reserved pool = Ok reserved ->
  uint64 (reserved + size) <= Size usage ->
  pool_Volumes pool = Ok (vpre ++ v :: vpost)%list ->
  (forall q, In q vpre -> isZdbVolume q = false) ->
  isZdbVolume v = true ->
  vol_Usage v = Ok vusage ->
  vol_Limit v (uint64 (Size vusage + size)) = None ->
  Allocate s diskType size mode
  = ([(v, uint64 (Size vusage + size))], (vol_Name v, vol_Path v, None)).
Proof.
  intros Hvols Hpre Hty Husage Hres Hroom Hpv Hvpre Hzdb Hvu Hlimit.
  unfold Allocate.
  rewrite Hvols, (Allocate_pools_skip _ _ _ _ (Allocate_pools_passed_over _ _ _ Hpre)).
  cbn [Allocate_pools]. rewrite Hty, String.eqb_refl, Husage, Hres. cbn [negb].
  destruct (Z.ltb_spec (Size usage) (uint64 (reserved + size))); [lia|].
  rewrite Hpv, (Allocate_volumes_skip _ _ _ Hvpre). cbn [Allocate_volumes].
  fold (isZdbVolume v). rewrite Hzdb, Hvu, Hlimit. reflexivity.
Qed.

Lemma Allocate_volumes_calls (size : Z) (vols : list Volume) (calls : list LimitCall)
    (name path : string) (err : option error) :
  Allocate_volumes size vols = Some (calls, (name, path, err)) ->
  (List.length calls <= 1)%nat
  /\ (err <> None -> name = "" /\ path = "")
  /\ (forall c, In c calls -> In (fst c) vols /\ isZdbVolume (fst c) = true).
Proof.
  induction vols as [|v vols IH]; cbn [Allocate_volumes]; [discriminate|].
  fold (isZdbVolume v). destruct (isZdbVolume v) eqn:Hzdb; cbn [negb].
  - destruct (vol_Usage v) as [usage|e].
    + destruct (vol_Limit v _) as [e|]; intros [= <- <- <- <-]; cbn;
        (split; [lia|]); (split; [try tauto; congruence|]);
        intros c [<-|[]]; cbn; auto.
    + intros [= <- <- <- <-]. cbn. split; [lia|]. split; [auto|]. intros c [].
  - intros Hrest. destruct (IH Hrest) as (Hlen & Herr & Hcalls).
    split; [exact Hlen|]. split; [exact Herr|].
    intros c Hc. destruct (Hcalls c Hc). split; [now right | assumption].
Qed.

(** [Allocate] makes at most one call to [Limit], always on a zdb volume
  of a pool of the requested type; when it returns an error the name and
  the path it returns are empty. *)
Theorem Allocate_limits_once (s : storageModule) (diskType : string) (size : Z)
    (mode : string) :
  let '(calls, (name, path, err)) := Allocate s diskType size mode in
  (List.length calls <= 1)%nat
  /\ (err <> None -> name = "" /\ path = "")
  /\ (forall c, In c calls ->
        isZdbVolume (fst c) = true
        /\ exists pool vols,
             In pool (volumes s) /\ pool_Type pool = diskType
             /\ pool_Volumes pool = Ok vols /\ In (fst c) vols).
Proof.
  unfold Allocate.
  destruct (Allocate_pools diskType size (volumes s)) as [[calls [[name path] err]]|]
    eqn:Hpools.
  - revert Hpools. generalize (volumes s). intros pools.
    induction pools as [|pool pools IH]; cbn [Allocate_pools]; [discriminate|].
    assert (Allocate_pools diskType size pools = Some (calls, (name, path, err)) ->
            (List.length calls <= 1)%nat
            /\ (err <> None -> name = "" /\ path = "")
            /\ (forall c, In c calls ->
                  isZdbVolume (fst c) = true
                  /\ exists pool0 vols,
                       In pool0 (pool :: pools) /\ pool_Type pool0 = diskType
                       /\ pool_Volumes pool0 = Ok vols /\ In (fst c) vols)) as Hrest.
    { intros Hp. destruct (IH Hp) as (Hlen & Herr & Hcalls).
      split; [exact Hlen|]. split; [exact Herr|]. intros c Hc.
      destruct (Hcalls c Hc) as (Hz & pool0 & vols & Hin & Hmore).
      split; [exact Hz|]. exists pool0, vols. split; [now right | exact Hmore]. }
    destruct (String.eqb_spec (pool_Type pool) diskType) as [Hty|_]; cbn [negb];
      [|exact Hrest].
    destruct (pool_Usage pool) as [usage|e];
      [|intros [= <- <- <- <-]; cbn; split; [lia|]; split; [auto|]; intros c []].
    destruct (pool_Reserved pool) as [reserved|e];
      [|intros [= <- <- <- <-]; cbn; split; [lia|]; split; [auto|]; intros c []].
    destruct (Size usage <? uint64 (reserved + size)); [exact Hrest|].
    destruct (pool_Volumes pool) as [vols|e] eqn:Hvols;
      [|intros [= <- <- <- <-]; cbn; split; [lia|]; split; [auto|]; intros c []].
    destruct (Allocate_volumes size vols) as [r|] eqn:Hav; [|exact Hrest].
    intros [= ->]. apply Allocate_volumes_calls in Hav.
    destruct Hav as (Hlen & Herr & Hcalls).
    split; [exact Hlen|]. split; [exact Herr|]. intros c Hc.
    destruct (Hcalls c Hc) as [Hin Hz]. split; [exact Hz|].
    exists pool, vols. split; [now left|]. auto.
  - destruct genZDBPoolName as [name|e];
      [|cbn; split; [lia|]; split; [auto|]; intros c []].
    destruct (createSubvol s size name diskType) as [vol|e]; cbn;
      (split; [lia|]); (split; [try tauto; congruence|]); intros c [].
Qed.

Lemma Claim_volumes_found (name : string) (vols : list Volume) (v : Volume) :
  Claim_volumes name vols = Some v -> In v vols /\ vol_Name v = name.
Proof.
  induction vols as [|x vols IH]; cbn [Claim_volumes]; [discriminate|].
  destruct (String.eqb_spec (vol_Name x) name) as [Heq|_].
  - intros [= <-]. split; [now left | exact Heq].
  - intros Hfound. destruct (IH Hfound). split; [now right | assumption].
Qed.

Lemma Claim_pools_found (name : string) (pools : list Pool) (v : Volume) :
  Claim_pools name pools = Ok (Some v) ->
  vol_Name v = name
  /\ exists pool vols, In pool pools /\ pool_Volumes pool = Ok vols /\ In v vols.
Proof.
  induction pools as [|pool pools IH]; cbn [Claim_pools]; [discriminate|].
  destruct (pool_Volumes pool) as [vols|err] eqn:Hvols; [|discriminate].
  destruct (Claim_volumes name vols) as [x|] eqn:Hcv.
  - intros [= ->]. apply Claim_volumes_found in Hcv. split; [tauto|].
    exists pool, vols. split; [now left|]. tauto.
  - intros Hfound. destruct (IH Hfound) as (Hname & pool0 & vols0 & Hin & Hmore).
    split; [exact Hname|]. exists pool0, vols0. split; [now right | exact Hmore].
Qed.

Lemma Claim_volumes_first (name : string) (vpre vpost : list Volume) (v : Volume) :
  (forall x, In x vpre -> vol_Name x <> name) ->
  vol_Name v = name ->
  Claim_volumes name (vpre ++ v :: vpost) = Some v.
Proof.
  intros Hpre Hname. induction vpre as [|x vpre IH]; cbn [app Claim_volumes].
  - apply String.eqb_eq in Hname. now rewrite Hname.
  - pose proof (Hpre x (or_introl eq_refl)) as Hx. apply String.eqb_neq in Hx.
    rewrite Hx. apply IH. intros y Hy. apply Hpre. now right.
Qed.

Lemma Claim_volumes_without (name : string) (vols : list Volume) :
  (forall x, In x vols -> vol_Name x <> name) -> Claim_volumes name vols = None.
Proof.
  induction vols as [|x vols IH]; intros Hnone; cbn [Claim_volumes]; [reflexivity|].
  pose proof (Hnone x (or_introl eq_refl)) as Hx. apply String.eqb_neq in Hx.
  rewrite Hx. apply IH. intros y Hy. apply Hnone. now right.
Qed.

Lemma Claim_pools_first (name : string) (pre post : list Pool) (pool : Pool)
    (vpre vpost : list Volume) (v : Volume) :
  (forall q, In q pre -> pool_without name q) ->
  pool_Volumes pool = Ok (vpre ++ v :: vpost)%list ->
  (forall x, In x vpre -> vol_Name x <> name) ->
  vol_Name v = name ->
  Claim_pools name (pre ++ pool :: post) = Ok (Some v).
Proof.
  intros Hpre Hvols Hvpre Hname. induction pre as [|q pre IH]; cbn [app Claim_pools].
  - now rewrite Hvols, (Claim_volumes_first _ _ _ _ Hvpre Hname).
  - destruct (Hpre q (or_introl eq_refl)) as (vols & -> & Hnone).
    rewrite (Claim_volumes_without _ _ Hnone). apply IH.
    intros y Hy. apply Hpre. now right.
Qed.

(** [Claim] works on the first volume of the given name: given pools
  before it that list no volume of that name, whatever their type, and
  volumes before it in its pool that have another name, it calls [Limit]
  once, on that volume, with the usage size minus the claimed size modulo
  2^64, whatever volumes of the same name come after.  The clamp to 1
  computed beside it is not what is passed, so claiming the whole size
  sets the limit 0, and claiming more wraps around to a limit just under
  2^64. *)
Theorem Claim_limit_is_not_clamped (s : storageModule) (name : string) (size : Z)
    (pre post : list Pool) (pool : Pool) (vpre vpost : list Volume)
    (v : Volume) (usage : Usage) :
  volumes s = (pre ++ pool :: post)%list ->
  (forall q, In q pre -> pool_without name q) ->
  pool_Volumes pool = Ok (vpre ++ v :: vpost)%list ->
  (forall x, In x vpre -> vol_Name x <> name) ->
  vol_Name v = name ->
  vol_Usage v = Ok usage ->
  0 <= Size usage < 2 ^ 64 ->
  0 <= size < 2 ^ 64 ->
  fst (Claim s name size)
  = [(v, if size <=? Size usage then Size usage - size
         else 2 ^ 64 - (size - Size usage))].
Proof.
  intros Hvols Hpre Hpv Hvpre Hname Husage Hu Hs.
  unfold Claim.
  rewrite Hvols, (Claim_pools_first _ _ _ _ _ _ _ Hpre Hpv Hvpre Hname), Husage.
  assert (uint64 (Size usage - size)
          = if size <=? Size usage then Size usage - size
            else 2 ^ 64 - (size - Size usage)) as ->.
  { unfold uint64. destruct (Z.leb_spec size (Size usage)).
    - apply Z.mod_small. lia.
    - symmetry. apply (Z.mod_unique _ _ (-1)); lia. }
  destruct (vol_Limit v _); reflexivity.
Qed.

(** [Claim] fails with "volume named ... not found", and calls nothing,
  when every pool lists its volumes and none of them has the name. *)
Theorem Claim_unknown_volume (s : storageModule) (name : string) (size : Z) :
  (forall pool, In pool (volumes s) ->
     exists vols, pool_Volumes pool = Ok vols
                  /\ forall x, In x vols -> vol_Name x <> name) ->
  Claim s name size
  = ([], Some (errorString ("volume named " ++ name ++ " not found"))).
Proof.
  intros Hnone. unfold Claim.
  assert (Claim_pools name (volumes s) = Ok None) as ->; [|reflexivity].
  revert Hnone. generalize (volumes s). intros pools.
  induction pools as [|pool pools IH]; intros Hnone; cbn [Claim_pools]; [reflexivity|].
  destruct (Hnone pool (or_introl eq_refl)) as (vols & -> & Hvols).
  assert (Claim_volumes name vols = None) as ->.
  { clear - Hvols. induction vols as [|x vols IHv]; cbn [Claim_volumes]; [reflexivity|].
    destruct (String.eqb_spec (vol_Name x) name) as [Heq|_].
    - now destruct (Hvols x (or_introl eq_refl)).
    - apply IHv. intros y Hy. apply Hvols. now right. }
  apply IH. intros p Hp. apply Hnone. now right.
Qed.

End Facts.
End StorageExtras.

(** * The further properties on the concrete network and storage *)
Module ExtraScenario.
Import modules network storage Claims Properties Scenario.
Import PlannerExtras StorageExtras.

#[local] Existing Instance sampleText.
#[local] Existing Instance sampleNibble.
#[local] Existing Instance sampleFS.
#[local] Existing Instance sampleQuota.

(** The exit A serves B and C, both in the hidden partition, without
  endpoints and with a route each. *)
Lemma exit_hub_serves_hidden_only_witness :
  configureExitNetNR_loop resA network0 (hiddenPrefixes (net_Resources network0))
    (res_Peers resA) [] []
  = Ok exitPlanA
  /\ map entryPrefix (fst exitPlanA) = ["2001:db8:0:2::/64"; "2001:db8:0:3::/64"]
  /\ List.length (snd exitPlanA) = List.length (fst exitPlanA).
Proof.
  split; [reflexivity|].
  destruct (exit_hub_serves_hidden_only resA network0 (fst exitPlanA) (snd exitPlanA))
    as (_ & _ & Hlen & Hmap); [reflexivity|].
  split; [rewrite Hmap; reflexivity | exact Hlen].
Defined.

(** A request for the namespace ns1, which zdb1 holds, is answered with
  zdb1. *)
Lemma Allocate2_reuses_holder_witness :
  Allocate2 storage0 "ns1" "SSD" 10 "seq" = (mkAllocation "zdb1" "/mnt/zdb1", None).
Proof.
  refine (proj1 (Allocate2_reuses_holder storage0 "ns1" "SSD" 10 "seq"
                   (mkAllocation "zdb1" "/mnt/zdb1") _)).
  reflexivity.
Defined.

(** On the storage whose pool cannot list its volumes, the error comes
  with the zero allocation. *)
Lemma Allocate2_error_names_no_volume_witness :
  snd (Allocate2 storageBroken "ns9" "SSD" 10 "seq")
  = Some (withMessage (errorString "input/output error")
            "failed to list volume on pool pool1")
  /\ fst (Allocate2 storageBroken "ns9" "SSD" 10 "seq") = zeroAllocation.
Proof.
  split; [reflexivity|].
  refine (Allocate2_error_names_no_volume storageBroken "ns9" "SSD" 10 "seq" _
            (withMessage (errorString "input/output error")
               "failed to list volume on pool pool1") _).
  reflexivity.
Defined.

(** A request of 2^64 - 60 on zdb1, which holds 60, wraps around to 0 and
  is taken as fitting the pool of 100. *)
Lemma searchVolumes_accepts_overflow_witness :
  searchVolumes (2 ^ 64 - 60) zeroAllocation (mkUsage 100) [zdb1; zdb2] []
  = Return (zeroAllocation, None).
Proof.
  refine (searchVolumes_accepts_overflow (2 ^ 64 - 60) zeroAllocation (mkUsage 100)
            zdb1 [zdb2] [] [mkNamespace "ns1" 60 "seq"] _ _ _ _ _);
    try reflexivity; vm_compute; intuition congruence.
Defined.

Lemma genZDBPoolName_is_zdb_witness :
  genZDBPoolName = Ok "zdb0000"
  /\ isZdbVolume (mkVolume "zdb0000" "/mnt/zdb0000") = true.
Proof.
  split; [reflexivity|].
  refine (genZDBPoolName_is_zdb "zdb0000" _ "/mnt/zdb0000"). reflexivity.
Defined.

(** With 20 units reserved on every pool and a limit of 50 on every
  volume, a request of 10 on SSD passes over the HDD pool, the pool of 20
  units and the pool without zdb volume, and raises to 60 the limit of
  zdbfull, the first zdb volume of the last pool. *)
Lemma Allocate_grows_first_zdb_volume_witness :
  Allocate storage2 "SSD" 10 "seq" = ([(zdbfull, 60)], ("zdbfull", "/mnt/zdbfull", None)).
Proof.
  refine (Allocate_grows_first_zdb_volume storage2 "SSD" 10 "seq"
            [poolHDD; poolTight; poolPlain] [] poolSSD
            (mkUsage 100) (mkUsage 50) 20 [dataVolume] [zdb1; zdb2] zdbfull
            _ _ _ _ _ _ _ _ _ _ _);
    try reflexivity.
  - intros p [<-|[<-|[<-|[]]]].
    + left. discriminate.
    + right. exists (mkUsage 20), 20. repeat split. left. vm_compute. reflexivity.
    + right. exists (mkUsage 100), 20. repeat split. right.
      exists [dataVolume]. split; [reflexivity|]. intros v [<-|[]]. reflexivity.
  - vm_compute. discriminate.
  - intros q [<-|[]]. reflexivity.
Defined.

(** Of the two volumes named zdbdup, claiming the whole 50 units sets the
  limit of the first one to 0. *)
Lemma Claim_limit_is_not_clamped_witness :
  fst (Claim storageDup "zdbdup" 50) = [(dupFirst, 0)].
Proof.
  refine (Claim_limit_is_not_clamped storageDup "zdbdup" 50 [poolHDD] [] poolDup
            [dataVolume] [dupSecond] dupFirst (mkUsage 50) _ _ _ _ _ _ _ _);
    try reflexivity.
  - intros q [<-|[]]. exists [zdbhdd]. split; [reflexivity|].
    intros x [<-|[]]. vm_compute. discriminate.
  - intros x [<-|[]]. vm_compute. discriminate.
  - vm_compute. intuition congruence.
  - vm_compute. intuition congruence.
Defined.

Lemma Claim_unknown_volume_witness :
  Claim storage0 "zdb9" 5 = ([], Some (errorString "volume named zdb9 not found")).
Proof.
  refine (Claim_unknown_volume storage0 "zdb9" 5 _).
  intros pool [<-|[]]. exists [zdb1; zdb2]. split; [reflexivity|].
  intros x [<-|[<-|[]]]; vm_compute; discriminate.
Defined.

End ExtraScenario.
